(** * Synchronization instructions of the VC4C intermediate representation

    A shallow embedding of the three synchronization node kinds of the
    intermediate representation (SemaphoreAdjustment, MemoryBarrier and
    LifetimeBoundary): construction, [to_string], [convertToAsm], [copyFor]
    and [mapsToASMInstruction], with the properties the specification
    states about them. *)

From stdpp Require Import base list strings pretty gmap.
From Stdlib Require Import ZArith Sorted.

Open Scope string_scope.
Open Scope list_scope.
Open Scope Z_scope.

(** ** Exceptions

    [throw CompilationError(step, message, detail)] ends a call; a call
    either returns a value or throws. *)

Inductive CompilationStep : Type :=
  | GENERAL
  | LLVM_2_IR
  | CODE_GENERATION.

Record CompilationError : Type := mkCompilationError {
  err_step : CompilationStep;
  err_message : string;
  err_detail : string
}.

Inductive Outcome (A : Type) : Type :=
  | Returns (a : A)
  | Throws (e : CompilationError).

Arguments Returns {A} a.
Arguments Throws {A} e.

(** A thrown exception propagates through the calls that follow. *)
#[global] Instance Outcome_bind : MBind Outcome := fun A B k c =>
  match c with
  | Returns a => k a
  | Throws e => Throws e
  end.

(** ** Integer casts and decimal text

    [static_cast<unsigned>] and [static_cast<int>] on 32-bit targets, and
    [std::to_string] of the result. *)

Definition static_cast_unsigned (v : Z) : Z := v mod 2 ^ 32.

Definition static_cast_int (v : Z) : Z := (v + 2 ^ 31) mod 2 ^ 32 - 2 ^ 31.

Definition std_to_string (v : Z) : string := pretty v.

(** ** What the headers declare

    The types and constants of the instruction set and the enumerator
    values of [MemoryScope] and [MemorySemantics] are declared in headers
    that are not part of the sources at hand; they are taken as parameters.
    Enumerations with an integral representation are kept as that integer. *)

Class Target : Type := {
  ConditionCode : Type;
  COND_ALWAYS : ConditionCode;
  SetFlag : Type;
  DONT_SET : SetFlag;
  Pack : Type;
  PACK_NOP : Pack;
  WriteSwap : Type;
  DONT_SWAP : WriteSwap;
  Address : Type;
  REG_NOP_num : Address;
  (* enum class MemoryScope *)
  CROSS_DEVICE : Z;
  DEVICE : Z;
  SUB_GROUP : Z;
  WORK_GROUP : Z;
  INVOCATION : Z;
  (* enum class MemorySemantics *)
  ACQUIRE : Z;
  RELEASE : Z;
  ACQUIRE_RELEASE : Z;
  SEQUENTIALLY_CONSISTENT : Z;
  SUBGROUP_MEMORY : Z;
  WORK_GROUP_MEMORY : Z;
  CROSS_WORK_GROUP_MEMORY : Z;
  ATOMIC_COUNTER_MEMORY : Z;
  IMAGE_MEMORY : Z
}.

Definition Semaphore : Type := Z.
Definition MemoryScope : Type := Z.
Definition MemorySemantics : Type := Z.

(** The enumerators of [MemoryScope] are case labels of one [switch], hence
    pairwise different. *)
Definition scope_enumerators `{Target} : list MemoryScope :=
  [CROSS_DEVICE; DEVICE; SUB_GROUP; WORK_GROUP; INVOCATION].

Definition semantics_enumerators `{Target} : list MemorySemantics :=
  [ACQUIRE; RELEASE; ACQUIRE_RELEASE; SEQUENTIALLY_CONSISTENT; SUBGROUP_MEMORY;
   WORK_GROUP_MEMORY; CROSS_WORK_GROUP_MEMORY; ATOMIC_COUNTER_MEMORY; IMAGE_MEMORY].

(** Flags of a bit set: no flag is empty and two flags share no bit. *)
Fixpoint disjoint_flags (fs : list Z) : Prop :=
  match fs with
  | [] => True
  | f :: rest => f <> 0 /\ Forall (fun g => Z.land f g = 0) rest /\ disjoint_flags rest
  end.

(** ** Operands

    Modelled from the spec: the operand model ([Value], [Local],
    [StackAllocation]) is declared outside the sources.  A value is a typed
    reference to a register, an immediate, or a symbolic program location
    (a local of the enclosing method, known there by its name); a local is
    a stack allocation or not. *)

Inductive LocalClass : Type :=
  | PlainLocal
  | GlobalLocal
  | StackAllocation.

Record Local : Type := mkLocal {
  local_name : string;
  local_class : LocalClass
}.

Inductive ValueType : Type :=
  | LITERAL
  | LOCAL
  | REGISTER.

Inductive Value : Type :=
  | LiteralValue (immediate : Z)
  | LocalValue (l : Local)
  | RegisterValue (number : Z).

Definition valueType (v : Value) : ValueType :=
  match v with
  | LiteralValue _ => LITERAL
  | LocalValue _ => LOCAL
  | RegisterValue _ => REGISTER
  end.

#[global] Instance ValueType_eq_dec : EqDecision ValueType.
Proof. solve_decision. Defined.

#[global] Instance LocalClass_eq_dec : EqDecision LocalClass.
Proof. solve_decision. Defined.

#[global] Instance Local_eq_dec : EqDecision Local.
Proof. solve_decision. Defined.

#[global] Instance Value_eq_dec : EqDecision Value.
Proof. solve_decision. Defined.

Definition hasType (v : Value) (t : ValueType) : bool := bool_decide (valueType v = t).

Definition is_StackAllocation (l : Local) : bool :=
  bool_decide (local_class l = StackAllocation).

(** [v.local->is<StackAllocation>()]; the member [local] is read only when
    the value has type [LOCAL]. *)
Definition local_is_StackAllocation (v : Value) : bool :=
  match v with
  | LocalValue l => is_StackAllocation l
  | _ => false
  end.

(** The operand resolves to a stack allocation. *)
Definition resolves_to_stack_allocation (v : Value) : Prop :=
  exists l, v = LocalValue l /\ local_class l = StackAllocation.

(** ** The instruction base class *)

Section Instructions.

Context `{T : Target}.

(** Modelled from the spec: the members of [IntermediateInstruction] are
    declared in IntermediateInstruction.h, outside the sources.  A node has
    an optional result, an ordered list of argument operands, a predicate,
    a flag-write mode and an ordered list of diagnostic annotation tags. *)
Record IntermediateInstruction : Type := mkInstruction {
  output : option Value;
  arguments : list Value;
  conditional : ConditionCode;
  setFlags : SetFlag;
  annotations : list string
}.

Definition NO_VALUE : option Value := None.

(** The base-class constructor [IntermediateInstruction(output, cond, setFlags)]. *)
Definition IntermediateInstruction_ctor (out : option Value) (cond : ConditionCode)
    (sf : SetFlag) : IntermediateInstruction :=
  {| output := out; arguments := []; conditional := cond; setFlags := sf;
     annotations := [] |}.

(** Modelled from the spec: [setArgument(index, arg)] is defined outside the
    sources.  The argument list is ordered; the slot [index] receives the
    operand, the list growing by one when the slot is the next free one. *)
Definition setArgument (index : nat) (arg : Value) (i : IntermediateInstruction)
    : IntermediateInstruction :=
  {| output := output i;
     arguments := if bool_decide (index < List.length (arguments i))%nat
                  then <[index := arg]> (arguments i)
                  else arguments i ++ [arg];
     conditional := conditional i; setFlags := setFlags i;
     annotations := annotations i |}.

Definition getArgument (index : nat) (i : IntermediateInstruction) : option Value :=
  arguments i !! index.

(** Modelled from the spec: [copyExtrasFrom(src)] is defined outside the
    sources.  Diagnostic annotations propagate verbatim across clones. *)
Definition copyExtrasFrom (src this : IntermediateInstruction) : IntermediateInstruction :=
  {| output := output this; arguments := arguments this;
     conditional := conditional this; setFlags := setFlags this;
     annotations := annotations src |}.

(** [createAdditionalInfoString()] and [Value::to_string()] are defined
    outside the sources; the text they produce is a parameter.  So is the
    exception raised when a node is read at an argument slot it does not
    have. *)
Class Rendering : Type := {
  createAdditionalInfoString : IntermediateInstruction -> string;
  Value_to_string : Value -> string;
  invalid_read : CompilationError
}.

Context `{R : Rendering}.

(** The mappings handed to [convertToAsm]; a local is known by its name. *)
Record Register : Type := mkRegister { num : Address }.

Definition REG_NOP : Register := {| num := REG_NOP_num |}.

Definition RegisterMapping : Type := gmap string Register.
Definition LabelMapping : Type := gmap string nat.

(** ** SemaphoreAdjustment *)

Record SemaphoreAdjustment : Type := mkSemaphoreAdjustment {
  sem_base : IntermediateInstruction;
  semaphore : Semaphore;
  increase : bool
}.

Definition SemaphoreAdjustment_ctor (sema : Semaphore) (inc : bool) (cond : ConditionCode)
    (sf : SetFlag) : SemaphoreAdjustment :=
  {| sem_base := IntermediateInstruction_ctor NO_VALUE cond sf;
     semaphore := sema; increase := inc |}.

Definition SemaphoreAdjustment_to_string (this : SemaphoreAdjustment) : string :=
  (("semaphore " +:+ (std_to_string (static_cast_unsigned (semaphore this)) +:+ " "))
     +:+ (if increase this then "increase" else "decrease"))
    +:+ createAdditionalInfoString (sem_base this).

(** Modelled from the spec: [qpu_asm::SemaphoreInstruction] is declared in
    asm/SemaphoreInstruction.h, outside the sources.  The machine
    instruction keeps the nine constructor arguments, in call order: the
    data-pack transform, the execute-condition, the flag-update condition,
    the flag-write mode, the register swap, two register placeholders, the
    direction flag and the semaphore identifier. *)
Record SemaphoreInstruction : Type := mkSemaphoreInstruction {
  si_pack : Pack;
  si_executeCondition : ConditionCode;
  si_flagCondition : ConditionCode;
  si_setFlags : SetFlag;
  si_writeSwap : WriteSwap;
  si_firstOutput : Address;
  si_secondOutput : Address;
  si_increment : bool;
  si_semaphore : Semaphore
}.

(** [qpu_asm::Instruction], the base class of the machine instructions. *)
Inductive Instruction : Type :=
  | AsmSemaphore (i : SemaphoreInstruction).

Definition SemaphoreAdjustment_convertToAsm (this : SemaphoreAdjustment)
    (registerMapping : RegisterMapping) (labelMapping : LabelMapping)
    (instructionIndex : nat) : Outcome Instruction :=
  Returns (AsmSemaphore
    (mkSemaphoreInstruction PACK_NOP (conditional (sem_base this))
       (conditional (sem_base this)) (setFlags (sem_base this)) DONT_SWAP
       (num REG_NOP) (num REG_NOP) (increase this) (semaphore this))).

(** ** MemoryBarrier *)

Record MemoryBarrier : Type := mkMemoryBarrier {
  mb_base : IntermediateInstruction;
  scope : MemoryScope;
  semantics : MemorySemantics
}.

(** The base-class constructor is called with its default predicate and
    flag-write mode. *)
Definition MemoryBarrier_ctor (sc : MemoryScope) (sm : MemorySemantics) : MemoryBarrier :=
  {| mb_base := IntermediateInstruction_ctor NO_VALUE COND_ALWAYS DONT_SET;
     scope := sc; semantics := sm |}.

Definition toString_MemoryScope (sc : MemoryScope) : Outcome string :=
  if bool_decide (sc = CROSS_DEVICE) then Returns "global"
  else if bool_decide (sc = DEVICE) then Returns "device"
  else if bool_decide (sc = SUB_GROUP) then Returns "sub-group"
  else if bool_decide (sc = WORK_GROUP) then Returns "work-group"
  else if bool_decide (sc = INVOCATION) then Returns "invocation"
  else Throws (mkCompilationError GENERAL "Unsupported memory scope value"
                 (std_to_string (static_cast_int sc))).

(** Modelled from the spec: [has_flag] is defined in helper.h, outside the
    sources.  The semantics are a bit set; a flag is present when all its
    bits are. *)
Definition has_flag (val flag : Z) : bool := bool_decide (Z.land val flag = flag).

(** Modelled from the spec: [vc4c::to_string<std::string>(values, separator)]
    is defined in helper.h, outside the sources.  The words are joined with
    the separator. *)
Definition join (values : list string) (separator : string) : string :=
  String.concat separator values.

Definition push_back (v : list string) (s : string) : list string := v ++ [s].

Definition toString_MemorySemantics (sm : MemorySemantics) : string :=
  let result := [] in
  let result := if has_flag sm ACQUIRE || has_flag sm ACQUIRE_RELEASE
                then push_back result "acquire" else result in
  let result := if has_flag sm RELEASE || has_flag sm ACQUIRE_RELEASE
                then push_back result "release" else result in
  let result := if has_flag sm SEQUENTIALLY_CONSISTENT
                then push_back result "sequentially consistent" else result in
  let result := if has_flag sm SUBGROUP_MEMORY
                then push_back result "sub-group" else result in
  let result := if has_flag sm WORK_GROUP_MEMORY
                then push_back result "work-group" else result in
  let result := if has_flag sm CROSS_WORK_GROUP_MEMORY
                then push_back result "global" else result in
  let result := if has_flag sm ATOMIC_COUNTER_MEMORY
                then push_back result "atomic counter" else result in
  let result := if has_flag sm IMAGE_MEMORY
                then push_back result "image" else result in
  join result "|".

Definition MemoryBarrier_to_string (this : MemoryBarrier) : Outcome string :=
  word ← toString_MemoryScope (scope this);
  Returns ((("mem-fence " +:+ (word +:+ ", ")) +:+ toString_MemorySemantics (semantics this))
             +:+ createAdditionalInfoString (mb_base this)).

Definition MemoryBarrier_convertToAsm (this : MemoryBarrier)
    (registerMapping : RegisterMapping) (labelMapping : LabelMapping)
    (instructionIndex : nat) : Outcome Instruction :=
  text ← MemoryBarrier_to_string this;
  Throws (mkCompilationError CODE_GENERATION
            "There should be no more memory barriers at this point" text).

Definition MemoryBarrier_mapsToASMInstruction (this : MemoryBarrier) : bool := false.

(** ** LifetimeBoundary *)

Record LifetimeBoundary : Type := mkLifetimeBoundary {
  lb_base : IntermediateInstruction;
  isLifetimeEnd : bool
}.

(** The object under construction, once the base class and the members are
    initialised and before the constructor's body runs. *)
Definition LifetimeBoundary_init (lifetimeEnd : bool) : LifetimeBoundary :=
  {| lb_base := IntermediateInstruction_ctor NO_VALUE COND_ALWAYS DONT_SET;
     isLifetimeEnd := lifetimeEnd |}.

(** The constructor's body: the exception it throws, if any, and the object
    as the body leaves it. *)
Definition LifetimeBoundary_body (allocation : Value) (this : LifetimeBoundary)
    : option CompilationError * LifetimeBoundary :=
  if negb (hasType allocation LOCAL) || negb (local_is_StackAllocation allocation)
  then (Some (mkCompilationError LLVM_2_IR
                "Cannot control life-time of object not located on stack"
                (Value_to_string allocation)), this)
  else (None, {| lb_base := setArgument 0 allocation (lb_base this);
                 isLifetimeEnd := isLifetimeEnd this |}).

(** A constructor that throws leaves no object behind. *)
Definition LifetimeBoundary_ctor (allocation : Value) (lifetimeEnd : bool)
    : Outcome LifetimeBoundary :=
  match LifetimeBoundary_body allocation (LifetimeBoundary_init lifetimeEnd) with
  | (Some e, _) => Throws e
  | (None, this) => Returns this
  end.

Definition getStackAllocation (this : LifetimeBoundary) : Outcome Value :=
  match getArgument 0 (lb_base this) with
  | Some v => Returns v
  | None => Throws invalid_read
  end.

Definition LifetimeBoundary_to_string (this : LifetimeBoundary) : Outcome string :=
  allocation ← getStackAllocation this;
  Returns (("life-time for " +:+ Value_to_string allocation)
             +:+ (if isLifetimeEnd this then " ends" else " starts")).

Definition LifetimeBoundary_convertToAsm (this : LifetimeBoundary)
    (registerMapping : RegisterMapping) (labelMapping : LabelMapping)
    (instructionIndex : nat) : Outcome Instruction :=
  text ← LifetimeBoundary_to_string this;
  Throws (mkCompilationError CODE_GENERATION
            "There should be no more lifetime instructions at this point" text).

Definition LifetimeBoundary_mapsToASMInstruction (this : LifetimeBoundary) : bool := false.

(** The structural invariant of the kind: the first argument is a local
    that is a stack allocation. *)
Definition LifetimeBoundary_invariant (this : LifetimeBoundary) : Prop :=
  exists l, getArgument 0 (lb_base this) = Some (LocalValue l)
            /\ is_StackAllocation l = true.

(** ** Structural copies

    [new] places an object in the store and yields its address; objects
    already there are not touched. *)

Inductive Node : Type :=
  | SemaphoreNode (n : SemaphoreAdjustment)
  | BarrierNode (n : MemoryBarrier)
  | LifetimeNode (n : LifetimeBoundary).

Definition Heap : Type := list Node.

Definition new (object : Node) (heap : Heap) : nat * Heap :=
  (List.length heap, heap ++ [object]).

(** Modelled from the spec: [Method] and [renameValue(method, value, prefix)]
    are defined outside the sources.  A method owns a symbol table; the
    renaming rule is a deterministic name-prefixing scheme, which re-resolves
    a referenced local against the destination method: the local of the same
    kind named by the prefix followed by the original name, entered into the
    table unless already there.  Other operands are kept. *)
Definition Method : Type := list Local.

Definition renameValue (method : Method) (orig : Value) (localPrefix : string)
    : Value * Method :=
  match orig with
  | LocalValue l =>
      let renamed := mkLocal (localPrefix +:+ local_name l) (local_class l) in
      (LocalValue renamed,
       if bool_decide (renamed ∈ method) then method else method ++ [renamed])
  | _ => (orig, method)
  end.

(** In the three [copyFor] below, [copyExtrasFrom] updates the node just
    built, before its address is handed out. *)
Definition SemaphoreAdjustment_copyFor (this : SemaphoreAdjustment) (method : Method)
    (localPrefix : string) (heap : Heap) : Outcome (nat * Method * Heap) :=
  let fresh := SemaphoreAdjustment_ctor (semaphore this) (increase this)
                 (conditional (sem_base this)) (setFlags (sem_base this)) in
  let copy := {| sem_base := copyExtrasFrom (sem_base this) (sem_base fresh);
                 semaphore := semaphore fresh; increase := increase fresh |} in
  let '(address, heap') := new (SemaphoreNode copy) heap in
  Returns (address, method, heap').

Definition MemoryBarrier_copyFor (this : MemoryBarrier) (method : Method)
    (localPrefix : string) (heap : Heap) : Outcome (nat * Method * Heap) :=
  let fresh := MemoryBarrier_ctor (scope this) (semantics this) in
  let copy := {| mb_base := copyExtrasFrom (mb_base this) (mb_base fresh);
                 scope := scope fresh; semantics := semantics fresh |} in
  let '(address, heap') := new (BarrierNode copy) heap in
  Returns (address, method, heap').

Definition LifetimeBoundary_copyFor (this : LifetimeBoundary) (method : Method)
    (localPrefix : string) (heap : Heap) : Outcome (nat * Method * Heap) :=
  allocation ← getStackAllocation this;
  let '(renamed, method') := renameValue method allocation localPrefix in
  fresh ← LifetimeBoundary_ctor renamed (isLifetimeEnd this);
  let copy := {| lb_base := copyExtrasFrom (lb_base this) (lb_base fresh);
                 isLifetimeEnd := isLifetimeEnd fresh |} in
  let '(address, heap') := new (LifetimeNode copy) heap in
  Returns (address, method', heap').

(** The virtual calls, dispatched on the kind of the node. *)
Definition copyFor (this : Node) (method : Method) (localPrefix : string) (heap : Heap)
    : Outcome (nat * Method * Heap) :=
  match this with
  | SemaphoreNode n => SemaphoreAdjustment_copyFor n method localPrefix heap
  | BarrierNode n => MemoryBarrier_copyFor n method localPrefix heap
  | LifetimeNode n => LifetimeBoundary_copyFor n method localPrefix heap
  end.

Definition node_base (n : Node) : IntermediateInstruction :=
  match n with
  | SemaphoreNode s => sem_base s
  | BarrierNode b => mb_base b
  | LifetimeNode l => lb_base l
  end.

(** Two nodes are of one kind and agree on the scalar fields of that kind. *)
Definition same_scalars (a b : Node) : Prop :=
  match a, b with
  | SemaphoreNode x, SemaphoreNode y =>
      semaphore x = semaphore y /\ increase x = increase y
  | BarrierNode x, BarrierNode y =>
      scope x = scope y /\ semantics x = semantics y
  | LifetimeNode x, LifetimeNode y => isLifetimeEnd x = isLifetimeEnd y
  | _, _ => False
  end.

Definition node_invariant (n : Node) : Prop :=
  match n with
  | LifetimeNode l => LifetimeBoundary_invariant l
  | _ => True
  end.

(** The local a node is bound to, for the kind that has one. *)
Definition bound_local (n : Node) : option Local :=
  match n with
  | LifetimeNode l =>
      match getArgument 0 (lb_base l) with
      | Some (LocalValue loc) => Some loc
      | _ => None
      end
  | _ => None
  end.

End Instructions.

(** ** The rendering the specification describes for memory semantics

    The words of the semantics, in the order of the text, each with the
    flags that contribute it. *)
Definition semantics_words `{Target} : list (string * list MemorySemantics) :=
  [ ("acquire", [ACQUIRE; ACQUIRE_RELEASE]);
    ("release", [RELEASE; ACQUIRE_RELEASE]);
    ("sequentially consistent", [SEQUENTIALLY_CONSISTENT]);
    ("sub-group", [SUBGROUP_MEMORY]);
    ("work-group", [WORK_GROUP_MEMORY]);
    ("global", [CROSS_WORK_GROUP_MEMORY]);
    ("atomic counter", [ATOMIC_COUNTER_MEMORY]);
    ("image", [IMAGE_MEMORY]) ].

Definition words_present `{Target} (sm : MemorySemantics) : list string :=
  map fst (List.filter (fun entry => existsb (has_flag sm) (snd entry)) semantics_words).

(** The words of the semantics as the specification spells them, to be
    compared with the words the code emits. *)
Definition semantics_words_specified `{Target} : list (string * list MemorySemantics) :=
  [ ("acquire", [ACQUIRE; ACQUIRE_RELEASE]);
    ("release", [RELEASE; ACQUIRE_RELEASE]);
    ("sequentially-consistent", [SEQUENTIALLY_CONSISTENT]);
    ("sub-group", [SUBGROUP_MEMORY]);
    ("work-group", [WORK_GROUP_MEMORY]);
    ("global", [CROSS_WORK_GROUP_MEMORY]);
    ("atomic-counter", [ATOMIC_COUNTER_MEMORY]);
    ("image", [IMAGE_MEMORY]) ].

Definition words_specified `{Target} (sm : MemorySemantics) : list string :=
  map fst (List.filter (fun entry => existsb (has_flag sm) (snd entry))
             semantics_words_specified).

(** The word of a scope of the enumeration. *)
Definition scope_words `{Target} : list (MemoryScope * string) :=
  [ (CROSS_DEVICE, "global"); (DEVICE, "device"); (SUB_GROUP, "sub-group");
    (WORK_GROUP, "work-group"); (INVOCATION, "invocation") ].

(** ** The profiler (Profiler.cpp)

    The tables of measured functions and of counters, as one thread sees
    them.  The clock, the logger and the resource report are outside the
    model: a call hands in the elapsed microseconds it measured, and the
    report is the sequence of table rows in the order their lines are
    written. *)
Module profiler.

(** [std::atomic_uint64_t] and [std::atomic<Duration::rep>] (a signed 64-bit
    count of microseconds): arithmetic wraps around. *)
Definition uint64 (v : Z) : Z := v mod 2 ^ 64.

Definition int64 (v : Z) : Z := (v + 2 ^ 63) mod 2 ^ 64 - 2 ^ 63.

Record Entry : Type := mkEntry {
  name : string;
  duration : Z;
  invocations : Z;
  fileName : string;
  lineNumber : N
}.

(** [Entry::operator<]: longer durations first, then names downwards. *)
Definition Entry_less (left right : Entry) : bool :=
  if bool_decide (duration left = duration right)
  then String.ltb (name right) (name left)
  else bool_decide (duration right < duration left).

Record Counter : Type := mkCounter {
  cname : string;
  count : Z;
  index : N;
  cinvocations : Z;
  prevCounter : N;
  cfileName : string;
  clineNumber : N
}.

(** [Counter::operator<]: by index upwards, then names downwards. *)
Definition Counter_less (left right : Counter) : bool :=
  if bool_decide (index left = index right)
  then String.ltb (cname right) (cname left)
  else bool_decide (index left < index right)%N.

(** The value-initialised element that [operator[]] of a map inserts for a
    key not yet present. *)
Definition Entry_zero : Entry :=
  {| name := ""; duration := 0; invocations := 0; fileName := ""; lineNumber := 0%N |}.

Definition Counter_zero : Counter :=
  {| cname := ""; count := 0; index := 0%N; cinvocations := 0; prevCounter := 0%N;
     cfileName := ""; clineNumber := 0%N |}.

(** [ThreadResultCache]; a [HashKey] and a counter index are numbers. *)
Record ThreadResultCache : Type := mkCache {
  localTimes : gmap N Entry;
  localCounters : gmap N Counter
}.

(** The statics [times], [counters] and the thread's [threadCache]. *)
Record State : Type := mkState {
  times : gmap N Entry;
  counters : gmap N Counter;
  threadCache : option ThreadResultCache
}.

(** An [Entry*] or [Counter*]: the table it points into and the key. *)
Inductive Table : Type :=
  | Global
  | ThreadLocal.

Definition createEntry (key : N) (nm file : string) (line : N) (st : State)
    : (Table * N) * State :=
  match threadCache st with
  | Some cache =>
      let entry := default Entry_zero (localTimes cache !! key) in
      let entry := {| name := nm; duration := duration entry;
                      invocations := invocations entry;
                      fileName := file; lineNumber := line |} in
      ((ThreadLocal, key),
       {| times := times st; counters := counters st;
          threadCache := Some {| localTimes := <[key := entry]> (localTimes cache);
                                 localCounters := localCounters cache |} |})
  | None =>
      let entry := default Entry_zero (times st !! key) in
      let entry := {| name := nm; duration := duration entry;
                      invocations := invocations entry;
                      fileName := file; lineNumber := line |} in
      ((Global, key),
       {| times := <[key := entry]> (times st); counters := counters st;
          threadCache := threadCache st |})
  end.

(** [entry->duration += elapsed; ++entry->invocations] on the pointee. *)
Definition Entry_end (elapsed : Z) (entry : Entry) : Entry :=
  {| name := name entry; duration := int64 (duration entry + elapsed);
     invocations := uint64 (invocations entry + 1);
     fileName := fileName entry; lineNumber := lineNumber entry |}.

Definition endFunctionCall (entry : Table * N) (elapsed : Z) (st : State) : State :=
  match entry with
  | (Global, key) =>
      {| times := alter (Entry_end elapsed) key (times st); counters := counters st;
         threadCache := threadCache st |}
  | (ThreadLocal, key) =>
      {| times := times st; counters := counters st;
         threadCache :=
           (fun cache => {| localTimes := alter (Entry_end elapsed) key (localTimes cache);
                            localCounters := localCounters cache |})
           <$> threadCache st |}
  end.

Definition createCounter (idx : N) (nm file : string) (line prevIndex : N) (st : State)
    : (Table * N) * State :=
  match threadCache st with
  | Some cache =>
      let entry := default Counter_zero (localCounters cache !! idx) in
      let entry := {| cname := nm; count := count entry; index := idx;
                      cinvocations := cinvocations entry; prevCounter := prevIndex;
                      cfileName := file; clineNumber := line |} in
      ((ThreadLocal, idx),
       {| times := times st; counters := counters st;
          threadCache := Some {| localTimes := localTimes cache;
                                 localCounters := <[idx := entry]> (localCounters cache) |} |})
  | None =>
      let entry := default Counter_zero (counters st !! idx) in
      let entry := {| cname := nm; count := count entry; index := idx;
                      cinvocations := cinvocations entry; prevCounter := prevIndex;
                      cfileName := file; clineNumber := line |} in
      ((Global, idx),
       {| times := times st; counters := <[idx := entry]> (counters st);
          threadCache := threadCache st |})
  end.

(** [counter->count += value; ++counter->invocations] on the pointee. *)
Definition Counter_increase (value : Z) (counter : Counter) : Counter :=
  {| cname := cname counter; count := uint64 (count counter + value);
     index := index counter; cinvocations := uint64 (cinvocations counter + 1);
     prevCounter := prevCounter counter; cfileName := cfileName counter;
     clineNumber := clineNumber counter |}.

Definition increaseCounter (counter : Table * N) (value : Z) (st : State) : State :=
  match counter with
  | (Global, key) =>
      {| times := times st; counters := alter (Counter_increase value) key (counters st);
         threadCache := threadCache st |}
  | (ThreadLocal, key) =>
      {| times := times st; counters := counters st;
         threadCache :=
           (fun cache => {| localTimes := localTimes cache;
                            localCounters :=
                              alter (Counter_increase value) key (localCounters cache) |})
           <$> threadCache st |}
  end.

(** The destructor of [ThreadResultCache]: each cached row is added to the
    global row of its key, or moved there when the key is new. *)
Definition Entry_add (found row : Entry) : Entry :=
  {| name := name found;
     duration := int64 (duration found + duration row);
     invocations := uint64 (invocations found + invocations row);
     fileName := fileName found; lineNumber := lineNumber found |}.

Definition flush_entry (global : gmap N Entry) (row : N * Entry) : gmap N Entry :=
  match global !! row.1 with
  | Some found => <[row.1 := Entry_add found row.2]> global
  | None => <[row.1 := row.2]> global
  end.

Definition Counter_add (found row : Counter) : Counter :=
  {| cname := cname found;
     count := uint64 (count found + count row);
     index := index found;
     cinvocations := uint64 (cinvocations found + cinvocations row);
     prevCounter := prevCounter found; cfileName := cfileName found;
     clineNumber := clineNumber found |}.

Definition flush_counter (global : gmap N Counter) (row : N * Counter) : gmap N Counter :=
  match global !! row.1 with
  | Some found => <[row.1 := Counter_add found row.2]> global
  | None => <[row.1 := row.2]> global
  end.

Definition ThreadResultCache_dtor (cache : ThreadResultCache)
    (global : gmap N Entry * gmap N Counter) : gmap N Entry * gmap N Counter :=
  (foldl flush_entry global.1 (map_to_list (localTimes cache)),
   foldl flush_counter global.2 (map_to_list (localCounters cache))).

(** [threadCache = std::make_unique<ThreadResultCache>()], compiled in with
    MULTI_THREADED only; a cache that is replaced is destroyed. *)
Definition startThreadCache (MULTI_THREADED : bool) (st : State) : State :=
  if MULTI_THREADED then
    let global := match threadCache st with
                  | Some old => ThreadResultCache_dtor old (times st, counters st)
                  | None => (times st, counters st)
                  end in
    {| times := global.1; counters := global.2;
       threadCache := Some {| localTimes := ∅; localCounters := ∅ |} |}
  else st.

(** [std::set<const T*, SortPointerTarget<const T>>::emplace]: the set keeps
    its elements in the order of [less] and takes no element equivalent to
    one it has. *)
Fixpoint set_emplace {A : Type} (less : A -> A -> bool) (x : A) (set : list A) : list A :=
  match set with
  | [] => [x]
  | y :: rest =>
      if less x y then x :: y :: rest
      else if less y x then y :: set_emplace less x rest
      else y :: rest
  end.

Record Report : Type := mkReport {
  functions : list Entry;
  counts : list Counter
}.

(** [dumpProfileResults]: the rows are collected and written when the
    logger takes the level; the tables are cleared in any case. *)
Definition dumpProfileResults (logEnabled : bool) (st : State) : option Report * State :=
  (if logEnabled then
     Some {| functions := foldl (fun set row => set_emplace Entry_less row.2 set) []
                            (map_to_list (times st));
             counts := foldl (fun set row => set_emplace Counter_less row.2 set) []
                         (map_to_list (counters st)) |}
   else None,
   {| times := ∅; counters := ∅; threadCache := threadCache st |}).

(** The columns of a row computed from it: whole milliseconds, and the
    averages per call, a row without calls being divided by one. *)
Definition Entry_milliseconds (entry : Entry) : Z := Z.quot (duration entry) 1000.

Definition Entry_perCall (entry : Entry) : Z :=
  uint64 (duration entry) / Z.max (invocations entry) 1.

Definition Counter_perCall (counter : Counter) : Z :=
  count counter / Z.max (cinvocations counter) 1.

(** The row a pointer points to. *)
Definition Entry_at (entry : Table * N) (st : State) : option Entry :=
  match entry with
  | (Global, key) => times st !! key
  | (ThreadLocal, key) => threadCache st ≫= fun cache => localTimes cache !! key
  end.

Definition Counter_at (counter : Table * N) (st : State) : option Counter :=
  match counter with
  | (Global, key) => counters st !! key
  | (ThreadLocal, key) => threadCache st ≫= fun cache => localCounters cache !! key
  end.

(** The table that [createEntry] and [createCounter] write to. *)
Definition active_table (st : State) : Table :=
  match threadCache st with
  | Some _ => ThreadLocal
  | None => Global
  end.

(** A measured call: the row is created or found, and the measurement is
    added at the end of the call. *)
Definition measured_call (key : N) (nm file : string) (line : N) (st : State)
    (elapsed : Z) : State :=
  let '(entry, st) := createEntry key nm file line st in
  endFunctionCall entry elapsed st.

Definition counted (idx : N) (nm file : string) (line prevIndex : N) (st : State)
    (value : Z) : State :=
  let '(counter, st) := createCounter idx nm file line prevIndex st in
  increaseCounter counter value st.

(** The calls of the interface, and a run of them. *)
Inductive Call : Type :=
  | CreateEntry (key : N) (nm file : string) (line : N)
  | EndFunctionCall (entry : Table * N) (elapsed : Z)
  | CreateCounter (idx : N) (nm file : string) (line prevIndex : N)
  | IncreaseCounter (counter : Table * N) (value : Z)
  | StartThreadCache
  | DumpProfileResults (logEnabled : bool).

(** One call.  [EndFunctionCall] and [IncreaseCounter] write through the
    pointer they are given; [call] is what they do when the row the pointer
    was issued for is still there, and [run] below lets them through only
    then. *)
Definition call (MULTI_THREADED : bool) (st : State) (c : Call) : State :=
  match c with
  | CreateEntry key nm file line => (createEntry key nm file line st).2
  | EndFunctionCall entry elapsed => endFunctionCall entry elapsed st
  | CreateCounter idx nm file line prevIndex =>
      (createCounter idx nm file line prevIndex st).2
  | IncreaseCounter counter value => increaseCounter counter value st
  | StartThreadCache => startThreadCache MULTI_THREADED st
  | DumpProfileResults logEnabled => (dumpProfileResults logEnabled st).2
  end.

(** The tables when the program starts. *)
Definition initial : State := {| times := ∅; counters := ∅; threadCache := None |}.

(** Every counter sits under its own index, in the global table and in the
    thread's cache. *)
Definition counters_indexed (table : gmap N Counter) : Prop :=
  forall key counter, table !! key = Some counter -> index counter = key.

Definition State_indexed (st : State) : Prop :=
  counters_indexed (counters st)
  /\ forall cache, threadCache st = Some cache -> counters_indexed (localCounters cache).

#[global] Instance Table_eq_dec : EqDecision Table.
Proof. solve_decision. Defined.

(** The pointers the caller holds that may still be used: those returned by
    [createEntry] and by [createCounter] whose row has not been destroyed
    since.  [times.clear()] and [counters.clear()] destroy the global rows,
    replacing the thread's cache destroys the cached rows. *)
Record Pointers : Type := mkPointers {
  entryPointers : list (Table * N);
  counterPointers : list (Table * N)
}.

Definition no_pointers : Pointers := {| entryPointers := []; counterPointers := [] |}.

Definition pointers_into (table : Table) (pointers : list (Table * N)) : list (Table * N) :=
  List.filter (fun pointer => bool_decide (pointer.1 = table)) pointers.

Definition permitted (live : Pointers) (c : Call) : bool :=
  match c with
  | EndFunctionCall entry _ => bool_decide (entry ∈ entryPointers live)
  | IncreaseCounter counter _ => bool_decide (counter ∈ counterPointers live)
  | _ => true
  end.

Definition track (MULTI_THREADED : bool) (st : State) (live : Pointers) (c : Call)
    : Pointers :=
  match c with
  | CreateEntry key nm file line =>
      {| entryPointers := (createEntry key nm file line st).1 :: entryPointers live;
         counterPointers := counterPointers live |}
  | CreateCounter idx nm file line prevIndex =>
      {| entryPointers := entryPointers live;
         counterPointers :=
           (createCounter idx nm file line prevIndex st).1 :: counterPointers live |}
  | StartThreadCache =>
      if MULTI_THREADED
      then {| entryPointers := pointers_into Global (entryPointers live);
              counterPointers := pointers_into Global (counterPointers live) |}
      else live
  | DumpProfileResults _ =>
      {| entryPointers := pointers_into ThreadLocal (entryPointers live);
         counterPointers := pointers_into ThreadLocal (counterPointers live) |}
  | EndFunctionCall _ _ => live
  | IncreaseCounter _ _ => live
  end.

(** A run of calls; a call through a pointer that is not live has no
    defined behaviour, and the run has no result. *)
Fixpoint run (MULTI_THREADED : bool) (calls : list Call) (st : State) (live : Pointers)
    : option (State * Pointers) :=
  match calls with
  | [] => Some (st, live)
  | c :: rest =>
      if permitted live c
      then run MULTI_THREADED rest (call MULTI_THREADED st c)
             (track MULTI_THREADED st live c)
      else None
  end.

(** Every live pointer has its row. *)
Definition pointers_resolve (st : State) (live : Pointers) : Prop :=
  (forall pointer, pointer ∈ entryPointers live -> is_Some (Entry_at pointer st))
  /\ (forall pointer, pointer ∈ counterPointers live -> is_Some (Counter_at pointer st)).

(** A short run, used to evaluate the definitions: a function and a counter
    measured before the thread has a cache, a counter measured in a first
    cache, which is then replaced, and a function measured in the second. *)
Definition sample_calls : list Call :=
  [ CreateEntry 9 "emit" "CodeGenerator.cpp" 40;
    EndFunctionCall (Global, 9%N) 700;
    CreateCounter 4 "instructions" "Optimizer.cpp" 12 4;
    IncreaseCounter (Global, 4%N) 120;
    StartThreadCache;
    CreateCounter 2 "locals" "Optimizer.cpp" 30 4;
    IncreaseCounter (ThreadLocal, 2%N) 5;
    StartThreadCache;
    CreateEntry 7 "parse" "Parser.cpp" 21;
    EndFunctionCall (ThreadLocal, 7%N) 1500 ].

Definition sample : State := foldl (call true) initial sample_calls.

End profiler.

(** ** An instance of the parameters

    The enumerators numbered as SPIR-V numbers them, and plain texts for
    operands and annotations; used to run the definitions on inputs. *)
Definition sample_target : Target :=
  {| ConditionCode := nat; COND_ALWAYS := 1%nat;
     SetFlag := bool; DONT_SET := false;
     Pack := nat; PACK_NOP := 0%nat;
     WriteSwap := bool; DONT_SWAP := false;
     Address := nat; REG_NOP_num := 39%nat;
     CROSS_DEVICE := 0; DEVICE := 1; WORK_GROUP := 2; SUB_GROUP := 3; INVOCATION := 4;
     ACQUIRE := 0x2; RELEASE := 0x4; ACQUIRE_RELEASE := 0x8;
     SEQUENTIALLY_CONSISTENT := 0x10; SUBGROUP_MEMORY := 0x80;
     WORK_GROUP_MEMORY := 0x100; CROSS_WORK_GROUP_MEMORY := 0x200;
     ATOMIC_COUNTER_MEMORY := 0x400; IMAGE_MEMORY := 0x800 |}.

Definition sample_rendering : @Rendering sample_target :=
  {| createAdditionalInfoString := fun i =>
       String.concat "" (map (fun tag => " " +:+ tag) (annotations i));
     Value_to_string := fun v =>
       match v with
       | LiteralValue z => pretty z
       | LocalValue l => "%" +:+ local_name l
       | RegisterValue r => "r" +:+ pretty r
       end;
     invalid_read := mkCompilationError GENERAL "Invalid read of optional value" "" |}.

(** The boundary ending the lifetime of a stack buffer. *)
Definition sample_boundary : @LifetimeBoundary sample_target :=
  {| lb_base := {| output := NO_VALUE;
                   arguments := [LocalValue (mkLocal "buffer" StackAllocation)];
                   conditional := @COND_ALWAYS sample_target;
                   setFlags := @DONT_SET sample_target;
                   annotations := [] |};
     isLifetimeEnd := true |}.

(** * Properties *)

(** ** Strings *)

Lemma append_cons (ch : Ascii.ascii) (a b : string) :
  String ch a +:+ b = String ch (a +:+ b).
Proof. reflexivity. Qed.

Lemma append_assoc (a b c : string) : (a +:+ b) +:+ c = a +:+ (b +:+ c).
Proof.
  induction a as [|ch a IH]; [reflexivity|].
  rewrite !append_cons. f_equal. exact IH.
Qed.

Lemma length_append (a b : string) :
  String.length (a +:+ b) = (String.length a + String.length b)%nat.
Proof.
  induction a as [|ch a IH]; [reflexivity|].
  rewrite append_cons. simpl. f_equal. exact IH.
Qed.

(** Two prefixes put before one name give one text only when they are equal. *)
Lemma append_inv_tail (a b name : string) : a +:+ name = b +:+ name -> a = b.
Proof.
  revert b. induction a as [|ch a IH]; intros [|ch' b] Heq.
  - reflexivity.
  - change ("" +:+ name) with name in Heq.
    apply (f_equal String.length) in Heq.
    rewrite append_cons in Heq. simpl in Heq. rewrite length_append in Heq. lia.
  - change ("" +:+ name) with name in Heq.
    apply (f_equal String.length) in Heq.
    rewrite append_cons in Heq. simpl in Heq. rewrite length_append in Heq. lia.
  - rewrite !append_cons in Heq. injection Heq as -> Heq. f_equal. now apply IH.
Qed.

(** ** Casts *)

Lemma static_cast_unsigned_id (v : Z) : 0 <= v < 2 ^ 32 -> static_cast_unsigned v = v.
Proof. intros Hv. unfold static_cast_unsigned. now apply Z.mod_small. Qed.

(** ** Bit sets *)

Lemma has_flag_lor_l (a b : Z) : has_flag (Z.lor a b) a = true.
Proof.
  apply bool_decide_eq_true. apply Z.bits_inj'. intros n _.
  rewrite Z.land_spec, Z.lor_spec. now destruct (Z.testbit a n), (Z.testbit b n).
Qed.

Lemma has_flag_lor_r (a b : Z) : has_flag (Z.lor a b) b = true.
Proof. rewrite Z.lor_comm. apply has_flag_lor_l. Qed.

Lemma has_flag_lor_disjoint (a b f : Z) :
  f <> 0 -> Z.land a f = 0 -> Z.land b f = 0 -> has_flag (Z.lor a b) f = false.
Proof.
  intros Hf Ha Hb. apply bool_decide_eq_false.
  rewrite Z.land_lor_distr_l, Ha, Hb, Z.lor_0_r. intros Heq. now apply Hf.
Qed.

Section Properties.

Context `{T : Target} {R : Rendering}.

(** ** SemaphoreAdjustment *)

(** C3: constructing a SemaphoreAdjustment for any semaphore identifier and
    direction and lowering it returns a machine instruction, which carries
    no data-pack transform, the predicate of the node as execute-condition
    and as flag-update condition, the flag-write mode of the node, no
    register swap, the no-data register twice, the direction and the
    semaphore identifier, both unchanged. *)
Theorem SemaphoreAdjustment_lowering (s : Semaphore) (d : bool) (cond : ConditionCode)
    (sf : SetFlag) (registerMapping : RegisterMapping) (labelMapping : LabelMapping)
    (instructionIndex : nat) :
  SemaphoreAdjustment_convertToAsm (SemaphoreAdjustment_ctor s d cond sf)
      registerMapping labelMapping instructionIndex
  = Returns (AsmSemaphore
      {| si_pack := PACK_NOP;
         si_executeCondition := cond;
         si_flagCondition := cond;
         si_setFlags := sf;
         si_writeSwap := DONT_SWAP;
         si_firstOutput := num REG_NOP;
         si_secondOutput := num REG_NOP;
         si_increment := d;
         si_semaphore := s |}).
Proof. reflexivity. Qed.

(** C9: a SemaphoreAdjustment with an identifier in the range of [unsigned]
    renders as "semaphore <id> increase" when the direction is increase and
    as "semaphore <id> decrease" otherwise, followed by the annotation text
    of the node; a node built for semaphore 3 and increase, whose annotation
    text is empty, renders as "semaphore 3 increase". *)
Theorem SemaphoreAdjustment_render (this : SemaphoreAdjustment)
    (Hid : 0 <= semaphore this < 2 ^ 32) :
  SemaphoreAdjustment_to_string this
  = "semaphore " +:+ pretty (semaphore this) +:+ " "
      +:+ (if increase this then "increase" else "decrease")
      +:+ createAdditionalInfoString (sem_base this)
  /\ (semaphore this = 3 -> increase this = true ->
      createAdditionalInfoString (sem_base this) = "" ->
      SemaphoreAdjustment_to_string this = "semaphore 3 increase").
Proof.
  assert (Htext : SemaphoreAdjustment_to_string this
    = "semaphore " +:+ pretty (semaphore this) +:+ " "
        +:+ (if increase this then "increase" else "decrease")
        +:+ createAdditionalInfoString (sem_base this)).
  { unfold SemaphoreAdjustment_to_string, std_to_string.
    rewrite static_cast_unsigned_id by exact Hid.
    now rewrite !append_assoc. }
  split; [exact Htext|].
  intros Hs Hinc Hinfo. rewrite Htext, Hs, Hinc, Hinfo. reflexivity.
Qed.

(** C10: lowering a SemaphoreAdjustment reads the stored fields only: two
    nodes with the same identifier, direction, predicate and flag-write mode
    (the same node twice, in particular) lower to the same machine
    instruction whatever the register mappings, label mappings and
    instruction indices are, and lowering returns an instruction, no
    mapping entry being needed. *)
Theorem SemaphoreAdjustment_lowering_reads_fields_only (this other : SemaphoreAdjustment)
    (rm1 rm2 : RegisterMapping) (lm1 lm2 : LabelMapping) (index1 index2 : nat)
    (Hsemaphore : semaphore this = semaphore other)
    (Hincrease : increase this = increase other)
    (Hcond : conditional (sem_base this) = conditional (sem_base other))
    (Hflags : setFlags (sem_base this) = setFlags (sem_base other)) :
  SemaphoreAdjustment_convertToAsm this rm1 lm1 index1
  = SemaphoreAdjustment_convertToAsm other rm2 lm2 index2
  /\ exists instruction,
       SemaphoreAdjustment_convertToAsm this rm1 lm1 index1 = Returns instruction.
Proof.
  unfold SemaphoreAdjustment_convertToAsm.
  rewrite Hsemaphore, Hincrease, Hcond, Hflags.
  split; [reflexivity | eexists; reflexivity].
Qed.

(** ** MemoryBarrier *)

Lemma toString_MemoryScope_enumerator (sc : MemoryScope) (word : string) :
  NoDup scope_enumerators -> (sc, word) ∈ scope_words ->
  toString_MemoryScope sc = Returns word.
Proof.
  unfold scope_enumerators, scope_words. intros Hnodup Hin.
  repeat (apply NoDup_cons in Hnodup as [? Hnodup]).
  repeat match goal with
         | H : _ ∉ _ :: _ |- _ => apply not_elem_of_cons in H as [? ?]
         end.
  unfold toString_MemoryScope.
  repeat (apply elem_of_cons in Hin as [Hin | Hin]; [injection Hin as -> ->|]);
    [ .. | now apply elem_of_nil in Hin ];
    repeat case_bool_decide; congruence.
Qed.

Lemma toString_MemoryScope_in_enumeration (sc : MemoryScope) :
  sc ∈ scope_enumerators -> exists word, toString_MemoryScope sc = Returns word.
Proof.
  intros Hin. unfold toString_MemoryScope.
  repeat (case_bool_decide; [eexists; reflexivity|]).
  exfalso. unfold scope_enumerators in Hin.
  repeat (apply elem_of_cons in Hin as [Hin | Hin]; [congruence|]).
  now apply elem_of_nil in Hin.
Qed.

Lemma toString_MemoryScope_outside_enumeration (sc : MemoryScope) :
  sc ∉ scope_enumerators ->
  toString_MemoryScope sc
  = Throws (mkCompilationError GENERAL "Unsupported memory scope value"
              (std_to_string (static_cast_int sc))).
Proof.
  unfold scope_enumerators. intros Hout.
  repeat (apply not_elem_of_cons in Hout as [? Hout]).
  unfold toString_MemoryScope. repeat case_bool_decide; congruence.
Qed.

(** The chain of tests of the source emits the words of the table that are
    present, in the order of the table. *)
Lemma toString_MemorySemantics_words (sm : MemorySemantics) :
  toString_MemorySemantics sm = join (words_present sm) "|".
Proof.
  unfold toString_MemorySemantics, words_present, semantics_words, push_back.
  cbn [List.filter existsb snd fst map].
  repeat match goal with
         | |- context [has_flag ?v ?f] => destruct (has_flag v f)
         end; reflexivity.
Qed.

(** C4, with the words as the code emits them: a MemoryBarrier whose scope
    is in the enumeration renders as
    "mem-fence", the word of the scope (global for cross-device, device,
    sub-group, work-group, invocation), a comma, and the words of the
    semantics present in the bit set, joined with the separator and emitted
    in the fixed order acquire, release, sequentially consistent, sub-group,
    work-group, global, atomic counter, image, acquire-release contributing
    both acquire and release; the annotation text follows.  A barrier built
    for scope WORK_GROUP and semantics ACQUIRE_RELEASE|WORK_GROUP_MEMORY,
    whose annotation text is empty, renders as
    "mem-fence work-group, acquire|release|work-group". *)
Theorem MemoryBarrier_render (Hscopes : NoDup scope_enumerators) :
  (forall (this : MemoryBarrier) (word : string),
     (scope this, word) ∈ scope_words ->
     MemoryBarrier_to_string this
     = Returns ("mem-fence " +:+ word +:+ ", "
                  +:+ join (words_present (semantics this)) "|"
                  +:+ createAdditionalInfoString (mb_base this)))
  /\ (disjoint_flags semantics_enumerators ->
      let barrier := MemoryBarrier_ctor WORK_GROUP
                       (Z.lor ACQUIRE_RELEASE WORK_GROUP_MEMORY) in
      createAdditionalInfoString (mb_base barrier) = "" ->
      MemoryBarrier_to_string barrier
      = Returns "mem-fence work-group, acquire|release|work-group").
Proof.
  assert (Hgeneral : forall (this : MemoryBarrier) (word : string),
     (scope this, word) ∈ scope_words ->
     MemoryBarrier_to_string this
     = Returns ("mem-fence " +:+ word +:+ ", "
                  +:+ join (words_present (semantics this)) "|"
                  +:+ createAdditionalInfoString (mb_base this))).
  { intros this word Hword. unfold MemoryBarrier_to_string.
    rewrite (toString_MemoryScope_enumerator _ _ Hscopes Hword).
    unfold mbind, Outcome_bind. rewrite toString_MemorySemantics_words.
    now rewrite !append_assoc. }
  split; [exact Hgeneral|].
  intros Hflags barrier Hinfo.
  rewrite (Hgeneral barrier "work-group").
  2:{ unfold scope_words. rewrite !elem_of_cons. auto. }
  rewrite Hinfo. simpl semantics.
  unfold semantics_enumerators in Hflags. cbn [disjoint_flags] in Hflags.
  repeat rewrite Forall_cons in Hflags. rewrite Forall_nil in Hflags.
  repeat match goal with
         | H : _ /\ _ |- _ => destruct H
         end.
  unfold words_present, semantics_words.
  cbn [List.filter existsb snd fst map].
  rewrite (has_flag_lor_l ACQUIRE_RELEASE WORK_GROUP_MEMORY).
  rewrite (has_flag_lor_r ACQUIRE_RELEASE WORK_GROUP_MEMORY).
  rewrite !orb_true_r. cbn [orb].
  rewrite !has_flag_lor_disjoint by (assumption || (rewrite Z.land_comm; assumption)).
  reflexivity.
Qed.

Lemma unsupported_scope_propagates (this : MemoryBarrier) :
  scope this ∉ scope_enumerators ->
  toString_MemoryScope (scope this)
  = Throws (mkCompilationError GENERAL "Unsupported memory scope value"
              (std_to_string (static_cast_int (scope this))))
  /\ MemoryBarrier_to_string this
     = Throws (mkCompilationError GENERAL "Unsupported memory scope value"
                 (std_to_string (static_cast_int (scope this)))).
Proof.
  intros Hout.
  pose proof (toString_MemoryScope_outside_enumeration _ Hout) as Hthrow.
  unfold MemoryBarrier_to_string. rewrite Hthrow. split; reflexivity.
Qed.

(** C5: rendering a MemoryBarrier whose scope is outside the enumeration
    throws the error "Unsupported memory scope value", carrying the scope
    as a number; no scope word is put in its place, as no text is returned. *)
Theorem MemoryBarrier_render_unsupported_scope (this : MemoryBarrier)
    (Hout : scope this ∉ scope_enumerators) :
  toString_MemoryScope (scope this)
  = Throws (mkCompilationError GENERAL "Unsupported memory scope value"
              (std_to_string (static_cast_int (scope this))))
  /\ MemoryBarrier_to_string this
     = Throws (mkCompilationError GENERAL "Unsupported memory scope value"
                 (std_to_string (static_cast_int (scope this))))
  /\ forall text, MemoryBarrier_to_string this <> Returns text.
Proof.
  destruct (unsupported_scope_propagates this Hout) as [Hscope Hrender].
  split; [exact Hscope|]. split; [exact Hrender|].
  intros text Heq. rewrite Hrender in Heq. discriminate Heq.
Qed.

(** C1, as the code has it: lowering a MemoryBarrier never returns a machine
    instruction; it throws.  With a scope of the enumeration the error is
    the one of code generation, "There should be no more memory barriers at
    this point", carrying the rendered text of the node; with a scope
    outside the enumeration the error of rendering that scope is thrown. *)
Theorem MemoryBarrier_lowering_throws (this : MemoryBarrier)
    (registerMapping : RegisterMapping) (labelMapping : LabelMapping)
    (instructionIndex : nat) :
  exists e,
    MemoryBarrier_convertToAsm this registerMapping labelMapping instructionIndex
    = Throws e
    /\ (((scope this ∈ scope_enumerators)
         /\ (exists text, MemoryBarrier_to_string this = Returns text
              /\ e = mkCompilationError CODE_GENERATION
                       "There should be no more memory barriers at this point" text))
        \/ ((scope this ∉ scope_enumerators)
            /\ e = mkCompilationError GENERAL "Unsupported memory scope value"
                     (std_to_string (static_cast_int (scope this))))).
Proof.
  unfold MemoryBarrier_convertToAsm.
  destruct (decide (scope this ∈ scope_enumerators)) as [Hin | Hout].
  - destruct (toString_MemoryScope_in_enumeration _ Hin) as [word Hword].
    unfold MemoryBarrier_to_string. rewrite Hword.
    eexists. split; [reflexivity|]. left. split; [exact Hin|].
    eexists. split; reflexivity.
  - destruct (unsupported_scope_propagates this Hout) as [_ Hthrow].
    rewrite Hthrow. eexists. split; [reflexivity|]. right. split; [exact Hout | reflexivity].
Qed.

(** C6: the encodability query answers false for every MemoryBarrier and
    for every LifetimeBoundary. *)
Theorem barrier_and_lifetime_never_map_to_asm (barrier : MemoryBarrier)
    (boundary : LifetimeBoundary) :
  MemoryBarrier_mapsToASMInstruction barrier = false
  /\ LifetimeBoundary_mapsToASMInstruction boundary = false.
Proof. split; reflexivity. Qed.

(** ** LifetimeBoundary *)

Lemma resolves_to_stack_allocation_check (allocation : Value) :
  resolves_to_stack_allocation allocation <->
  negb (hasType allocation LOCAL) || negb (local_is_StackAllocation allocation) = false.
Proof.
  unfold resolves_to_stack_allocation, hasType, local_is_StackAllocation,
    is_StackAllocation.
  destruct allocation as [z | l | r]; simpl.
  - split; [intros (l & Heq & _); discriminate Heq | intros Heq; discriminate Heq].
  - split.
    + intros (l' & [= <-] & Hclass). now rewrite bool_decide_eq_true_2.
    + intros Hcheck. exists l. split; [reflexivity|].
      apply negb_false_iff in Hcheck. now apply bool_decide_eq_true in Hcheck.
  - split; [intros (l & Heq & _); discriminate Heq | intros Heq; discriminate Heq].
Qed.

(** A constructor call on a stack allocation returns the node that holds
    the operand as its only argument. *)
Lemma LifetimeBoundary_ctor_stack (l : Local) (lifetimeEnd : bool) :
  is_StackAllocation l = true ->
  LifetimeBoundary_ctor (LocalValue l) lifetimeEnd
  = Returns {| lb_base := {| output := NO_VALUE; arguments := [LocalValue l];
                             conditional := COND_ALWAYS; setFlags := DONT_SET;
                             annotations := [] |};
               isLifetimeEnd := lifetimeEnd |}.
Proof.
  intros Hstack. unfold LifetimeBoundary_ctor, LifetimeBoundary_body,
    local_is_StackAllocation.
  rewrite Hstack. reflexivity.
Qed.

Lemma LifetimeBoundary_ctor_returns (allocation : Value) (lifetimeEnd : bool)
    (this : LifetimeBoundary) :
  LifetimeBoundary_ctor allocation lifetimeEnd = Returns this ->
  exists l, allocation = LocalValue l /\ is_StackAllocation l = true
            /\ arguments (lb_base this) = [allocation]
            /\ isLifetimeEnd this = lifetimeEnd.
Proof.
  unfold LifetimeBoundary_ctor, LifetimeBoundary_body, local_is_StackAllocation.
  destruct allocation as [z | l | r]; [intros [=] | | intros [=]].
  destruct (is_StackAllocation l) eqn:Hstack; [|intros [=]].
  intros [= <-]. exists l.
  split; [reflexivity|]. split; [exact Hstack|]. split; reflexivity.
Qed.

Lemma LifetimeBoundary_ctor_invariant (allocation : Value) (lifetimeEnd : bool)
    (this : LifetimeBoundary) :
  LifetimeBoundary_ctor allocation lifetimeEnd = Returns this ->
  LifetimeBoundary_invariant this.
Proof.
  intros Hctor. apply LifetimeBoundary_ctor_returns in Hctor as (l & -> & Hstack & Hargs & _).
  exists l. unfold getArgument. rewrite Hargs. split; [reflexivity | exact Hstack].
Qed.

(** C2: constructing a LifetimeBoundary over an operand that does not
    resolve to a stack allocation throws the error "Cannot control life-time
    of object not located on stack" with the text of the operand.  The throw
    comes first in the body: the object under construction is as the
    initialisation left it, its argument list empty and the operand not in
    it, and no node is returned to render or lower. *)
Theorem LifetimeBoundary_rejects_non_stack_operand (allocation : Value)
    (lifetimeEnd : bool) (Hinvalid : ~ resolves_to_stack_allocation allocation) :
  let rejected := mkCompilationError LLVM_2_IR
                    "Cannot control life-time of object not located on stack"
                    (Value_to_string allocation) in
  LifetimeBoundary_body allocation (LifetimeBoundary_init lifetimeEnd)
  = (Some rejected, LifetimeBoundary_init lifetimeEnd)
  /\ arguments (lb_base (LifetimeBoundary_body allocation
                           (LifetimeBoundary_init lifetimeEnd)).2) = []
  /\ (allocation ∉ arguments (lb_base (LifetimeBoundary_body allocation
                                         (LifetimeBoundary_init lifetimeEnd)).2))
  /\ LifetimeBoundary_ctor allocation lifetimeEnd = Throws rejected
  /\ forall node, LifetimeBoundary_ctor allocation lifetimeEnd <> Returns node.
Proof.
  intros rejected.
  assert (Hcheck : negb (hasType allocation LOCAL)
                   || negb (local_is_StackAllocation allocation) = true).
  { apply not_false_iff_true. intros Hfalse.
    now apply Hinvalid, resolves_to_stack_allocation_check. }
  assert (Hbody : LifetimeBoundary_body allocation (LifetimeBoundary_init lifetimeEnd)
                  = (Some rejected, LifetimeBoundary_init lifetimeEnd)).
  { unfold LifetimeBoundary_body. now rewrite Hcheck. }
  unfold LifetimeBoundary_ctor. rewrite Hbody. simpl.
  repeat split; try reflexivity.
  - apply not_elem_of_nil.
  - intros node Heq. discriminate Heq.
Qed.

(** C7: lowering a LifetimeBoundary never returns a machine instruction.
    For a node that holds its stack allocation, as every constructed node
    does, the error thrown is the one of code generation, "There should be
    no more lifetime instructions at this point", carrying the rendered
    text of the node, "life-time for <object> starts" or "... ends". *)
Theorem LifetimeBoundary_lowering_throws (this : LifetimeBoundary)
    (registerMapping : RegisterMapping) (labelMapping : LabelMapping)
    (instructionIndex : nat) (Hinvariant : LifetimeBoundary_invariant this) :
  exists l,
    getArgument 0 (lb_base this) = Some (LocalValue l)
    /\ let text := "life-time for " +:+ Value_to_string (LocalValue l)
                     +:+ (if isLifetimeEnd this then " ends" else " starts") in
       LifetimeBoundary_to_string this = Returns text
       /\ LifetimeBoundary_convertToAsm this registerMapping labelMapping
            instructionIndex
          = Throws (mkCompilationError CODE_GENERATION
                      "There should be no more lifetime instructions at this point"
                      text)
       /\ forall instruction,
            LifetimeBoundary_convertToAsm this registerMapping labelMapping
              instructionIndex <> Returns instruction.
Proof.
  destruct Hinvariant as (l & Harg & _). exists l. split; [exact Harg|].
  intros text.
  assert (Hrender : LifetimeBoundary_to_string this = Returns text).
  { unfold LifetimeBoundary_to_string, getStackAllocation. rewrite Harg.
    unfold mbind, Outcome_bind, text. now rewrite append_assoc. }
  unfold LifetimeBoundary_convertToAsm. rewrite Hrender.
  repeat split. intros instruction Heq. discriminate Heq.
Qed.

(** ** Structural copies *)

Lemma new_fresh (object : Node) (heap : Heap) :
  new object heap = (List.length heap, heap ++ [object])
  /\ heap !! List.length heap = None
  /\ (heap ++ [object]) !! List.length heap = Some object
  /\ forall address node, heap !! address = Some node ->
       (heap ++ [object]) !! address = Some node.
Proof.
  split; [reflexivity|]. split; [now apply lookup_ge_None_2|].
  split; [now rewrite lookup_app_r, Nat.sub_diag by lia|].
  intros address node Hlookup. now apply lookup_app_l_Some.
Qed.

Lemma renameValue_local (method : Method) (l : Local) (localPrefix : string) :
  let renamed := mkLocal (localPrefix +:+ local_name l) (local_class l) in
  exists method', renameValue method (LocalValue l) localPrefix = (LocalValue renamed, method')
                  /\ renamed ∈ method'
                  /\ forall other, other ∈ method -> other ∈ method'.
Proof.
  intros renamed. unfold renameValue. fold renamed.
  case_bool_decide as Hin; eexists; (split; [reflexivity|]); split; auto.
  - apply elem_of_app. right. apply list_elem_of_singleton. reflexivity.
  - intros other Hother. apply elem_of_app. now left.
Qed.

(** One copy: the node it allocates, at the next free address of the store. *)
Lemma copyFor_allocates (source : Node) (method : Method) (localPrefix : string)
    (heap : Heap) :
  node_invariant source ->
  exists copy method',
    copyFor source method localPrefix heap
    = Returns (List.length heap, method', heap ++ [copy])
    /\ same_scalars source copy
    /\ annotations (node_base copy) = annotations (node_base source)
    /\ node_invariant copy
    /\ (forall other, other ∈ method -> other ∈ method')
    /\ (forall l, bound_local source = Some l ->
          let renamed := mkLocal (localPrefix +:+ local_name l) StackAllocation in
          bound_local copy = Some renamed /\ renamed ∈ method').
Proof.
  destruct source as [s | b | l]; intros Hinvariant.
  - eexists _, method. split; [reflexivity|]. simpl.
    split; [split; reflexivity|]. split; [reflexivity|]. split; [exact I|].
    split; [auto|]. intros loc [=].
  - eexists _, method. split; [reflexivity|]. simpl.
    split; [split; reflexivity|]. split; [reflexivity|]. split; [exact I|].
    split; [auto|]. intros loc [=].
  - destruct Hinvariant as (loc & Harg & Hstack).
    destruct (renameValue_local method loc localPrefix) as (method' & Hrename & Hin & Hkeep).
    assert (Hclass : local_class loc = StackAllocation).
    { now apply bool_decide_eq_true in Hstack. }
    rewrite Hclass in Hrename, Hin.
    set (renamed := mkLocal (localPrefix +:+ local_name loc) StackAllocation) in *.
    eexists _, method'. split.
    { unfold copyFor, LifetimeBoundary_copyFor, getStackAllocation.
      rewrite Harg. unfold mbind at 1, Outcome_bind at 1. rewrite Hrename.
      rewrite (LifetimeBoundary_ctor_stack renamed (isLifetimeEnd l)) by reflexivity.
      reflexivity. }
    simpl. split; [reflexivity|]. split; [reflexivity|].
    split; [exists renamed; split; reflexivity|].
    split; [exact Hkeep|].
    intros l0. rewrite Harg. intros [= <-]. split; [reflexivity | exact Hin].
Qed.

(** C8: copying a node of one of the three kinds allocates a node of its
    own, at an address not in use, and leaves the nodes of the store as they
    were.  The copy has the scalar fields of the source (semaphore
    identifier and direction; scope and semantics; the lifetime-end flag)
    and its annotations.  The copy of a LifetimeBoundary is bound to the
    local of the destination method named by the prefix followed by the
    name of the source's local, and that local is a stack allocation.  Two
    copies of one source made with two different prefixes are two nodes at
    two addresses, bound to two different locals of the method, each copy
    satisfying the invariant of its kind. *)
Theorem copyFor_twice_independent (source : Node) (method : Method)
    (prefix1 prefix2 : string) (heap : Heap)
    (Hinvariant : node_invariant source) (Hprefix : prefix1 <> prefix2) :
  exists address1 method1 heap1 address2 method2 heap2 copy1 copy2,
    copyFor source method prefix1 heap = Returns (address1, method1, heap1)
    /\ copyFor source method1 prefix2 heap1 = Returns (address2, method2, heap2)
    /\ heap !! address1 = None
    /\ heap1 !! address2 = None
    /\ address1 <> address2
    /\ heap2 !! address1 = Some copy1
    /\ heap2 !! address2 = Some copy2
    /\ (forall address node, heap !! address = Some node ->
          heap2 !! address = Some node)
    /\ same_scalars source copy1
    /\ same_scalars source copy2
    /\ annotations (node_base copy1) = annotations (node_base source)
    /\ annotations (node_base copy2) = annotations (node_base source)
    /\ node_invariant copy1
    /\ node_invariant copy2
    /\ (forall l, bound_local source = Some l ->
          let renamed1 := mkLocal (prefix1 +:+ local_name l) StackAllocation in
          let renamed2 := mkLocal (prefix2 +:+ local_name l) StackAllocation in
          bound_local copy1 = Some renamed1
          /\ bound_local copy2 = Some renamed2
          /\ renamed1 <> renamed2
          /\ renamed1 ∈ method2
          /\ renamed2 ∈ method2).
Proof.
  destruct (copyFor_allocates source method prefix1 heap Hinvariant)
    as (copy1 & method1 & Hcopy1 & Hscalars1 & Hnotes1 & Hinv1 & Hkeep1 & Hlocal1).
  destruct (copyFor_allocates source method1 prefix2 (heap ++ [copy1]) Hinvariant)
    as (copy2 & method2 & Hcopy2 & Hscalars2 & Hnotes2 & Hinv2 & Hkeep2 & Hlocal2).
  destruct (new_fresh copy1 heap) as (_ & Hfresh1 & Hat1 & Hold1).
  destruct (new_fresh copy2 (heap ++ [copy1])) as (_ & Hfresh2 & Hat2 & Hold2).
  exists (List.length heap), method1, (heap ++ [copy1]),
         (List.length (heap ++ [copy1])), method2, ((heap ++ [copy1]) ++ [copy2]),
         copy1, copy2.
  split; [exact Hcopy1|]. split; [exact Hcopy2|].
  split; [exact Hfresh1|]. split; [exact Hfresh2|].
  split; [rewrite length_app; simpl; lia|].
  split; [apply Hold2, Hat1|]. split; [exact Hat2|].
  split; [intros address node Hlookup; apply Hold2, Hold1, Hlookup|].
  split; [exact Hscalars1|]. split; [exact Hscalars2|].
  split; [exact Hnotes1|]. split; [exact Hnotes2|].
  split; [exact Hinv1|]. split; [exact Hinv2|].
  intros l Hbound renamed1 renamed2.
  destruct (Hlocal1 l Hbound) as [Hbound1 Hin1].
  destruct (Hlocal2 l Hbound) as [Hbound2 Hin2].
  split; [exact Hbound1|]. split; [exact Hbound2|].
  split.
  { intros [= Hname]. apply Hprefix. exact (append_inv_tail _ _ _ Hname). }
  split; [apply Hkeep2, Hin1 | exact Hin2].
Qed.

End Properties.

(** * The properties at concrete inputs *)

#[local] Existing Instance sample_target.
#[local] Existing Instance sample_rendering.

Lemma sample_scopes_distinct : NoDup (@scope_enumerators sample_target).
Proof. apply (bool_decide_unpack _). vm_compute. exact I. Defined.

Lemma sample_flags_disjoint : disjoint_flags (@semantics_enumerators sample_target).
Proof.
  unfold semantics_enumerators. cbn [disjoint_flags].
  repeat split; try discriminate; repeat constructor.
Defined.

(** SemaphoreAdjustment(semaphore=3, increase=true) renders "semaphore 3 increase". *)
Lemma SemaphoreAdjustment_render_witness :
  0 <= semaphore (SemaphoreAdjustment_ctor 3 true COND_ALWAYS DONT_SET) < 2 ^ 32
  /\ SemaphoreAdjustment_to_string (SemaphoreAdjustment_ctor 3 true COND_ALWAYS DONT_SET)
     = "semaphore 3 increase".
Proof.
  assert (Hid : 0 <= semaphore (SemaphoreAdjustment_ctor 3 true COND_ALWAYS DONT_SET)
                < 2 ^ 32) by (simpl; lia).
  split; [exact Hid|].
  apply (SemaphoreAdjustment_render
           (SemaphoreAdjustment_ctor 3 true COND_ALWAYS DONT_SET) Hid); reflexivity.
Defined.

(** A node and its copy with other annotations lower alike under different
    mappings. *)
Lemma SemaphoreAdjustment_lowering_reads_fields_only_witness :
  let this := SemaphoreAdjustment_ctor 5 false COND_ALWAYS DONT_SET in
  let other := {| sem_base := copyExtrasFrom
                                {| output := None; arguments := []; conditional := COND_ALWAYS;
                                   setFlags := DONT_SET; annotations := ["unsigned"] |}
                                (sem_base this);
                  semaphore := 5; increase := false |} in
  SemaphoreAdjustment_convertToAsm this ∅ ∅ 0
  = SemaphoreAdjustment_convertToAsm other
      {[ "%x" := {| num := 3%nat |} ]} {[ "%label" := 12%nat ]} 7
  /\ exists instruction,
       SemaphoreAdjustment_convertToAsm this ∅ ∅ 0 = Returns instruction.
Proof.
  intros this other.
  apply (SemaphoreAdjustment_lowering_reads_fields_only this other); reflexivity.
Defined.

(** MemoryBarrier(WORK_GROUP, ACQUIRE_RELEASE|WORK_GROUP_MEMORY) renders
    "mem-fence work-group, acquire|release|work-group". *)
Lemma MemoryBarrier_render_witness :
  NoDup scope_enumerators
  /\ disjoint_flags semantics_enumerators
  /\ MemoryBarrier_to_string
       (MemoryBarrier_ctor WORK_GROUP (Z.lor ACQUIRE_RELEASE WORK_GROUP_MEMORY))
     = Returns "mem-fence work-group, acquire|release|work-group"
  /\ MemoryBarrier_to_string
       (MemoryBarrier_ctor DEVICE (Z.lor IMAGE_MEMORY (Z.lor RELEASE ACQUIRE)))
     = Returns "mem-fence device, acquire|release|image".
Proof.
  split; [exact sample_scopes_distinct|]. split; [exact sample_flags_disjoint|].
  destruct (MemoryBarrier_render sample_scopes_distinct) as [Hgeneral Hexample].
  split.
  - apply Hexample; [exact sample_flags_disjoint | reflexivity].
  - rewrite (Hgeneral _ "device"); [reflexivity|].
    unfold scope_words. rewrite !elem_of_cons. auto.
Defined.

(** C4, as stated, fails: the barrier of scope WORK_GROUP and semantics
    SEQUENTIALLY_CONSISTENT renders the word "sequentially consistent", with
    a space, not the word "sequentially-consistent" of the specification. *)
Lemma MemoryBarrier_render_sequentially_consistent :
  MemoryBarrier_to_string (MemoryBarrier_ctor WORK_GROUP SEQUENTIALLY_CONSISTENT)
  = Returns "mem-fence work-group, sequentially consistent"
  /\ words_specified SEQUENTIALLY_CONSISTENT = ["sequentially-consistent"]
  /\ MemoryBarrier_to_string (MemoryBarrier_ctor WORK_GROUP SEQUENTIALLY_CONSISTENT)
     <> Returns ("mem-fence " +:+ "work-group" +:+ ", "
                   +:+ join (words_specified SEQUENTIALLY_CONSISTENT) "|"
                   +:+ createAdditionalInfoString
                         (mb_base (MemoryBarrier_ctor WORK_GROUP SEQUENTIALLY_CONSISTENT))).
Proof.
  split; [reflexivity|]. split; [reflexivity|]. intros Heq. vm_compute in Heq.
  discriminate Heq.
Qed.

(** A barrier of scope 7 does not render. *)
Lemma MemoryBarrier_render_unsupported_scope_witness :
  (scope (MemoryBarrier_ctor 7 ACQUIRE) ∉ scope_enumerators)
  /\ MemoryBarrier_to_string (MemoryBarrier_ctor 7 ACQUIRE)
     = Throws (mkCompilationError GENERAL "Unsupported memory scope value" "7").
Proof.
  assert (Hout : scope (MemoryBarrier_ctor 7 ACQUIRE) ∉ scope_enumerators).
  { apply (bool_decide_unpack _). vm_compute. exact I. }
  split; [exact Hout|].
  exact (proj1 (proj2 (MemoryBarrier_render_unsupported_scope
                         (MemoryBarrier_ctor 7 ACQUIRE) Hout))).
Defined.

(** C1, as stated, fails: lowering the barrier of scope 7 throws the error
    of rendering its scope, which is not the error of code generation and
    carries no rendered text, as the node has none. *)
Lemma MemoryBarrier_lowering_unsupported_scope :
  MemoryBarrier_convertToAsm (MemoryBarrier_ctor 7 ACQUIRE) ∅ ∅ 0
  = Throws (mkCompilationError GENERAL "Unsupported memory scope value" "7")
  /\ ~ (exists text,
         MemoryBarrier_to_string (MemoryBarrier_ctor 7 ACQUIRE) = Returns text
         /\ MemoryBarrier_convertToAsm (MemoryBarrier_ctor 7 ACQUIRE) ∅ ∅ 0
            = Throws (mkCompilationError CODE_GENERATION
                        "There should be no more memory barriers at this point" text)).
Proof.
  split; [reflexivity|]. intros (text & Hrender & _). discriminate Hrender.
Qed.

(** A literal and a local that is no stack allocation are rejected. *)
Lemma LifetimeBoundary_rejects_non_stack_operand_witness :
  ~ resolves_to_stack_allocation (LocalValue (mkLocal "counter" PlainLocal))
  /\ LifetimeBoundary_ctor (LocalValue (mkLocal "counter" PlainLocal)) false
     = Throws (mkCompilationError LLVM_2_IR
                 "Cannot control life-time of object not located on stack" "%counter")
  /\ forall node,
       LifetimeBoundary_ctor (LocalValue (mkLocal "counter" PlainLocal)) false
       <> Returns node.
Proof.
  assert (Hinvalid : ~ resolves_to_stack_allocation
                         (LocalValue (mkLocal "counter" PlainLocal))).
  { intros (l & [= <-] & Hclass). discriminate Hclass. }
  split; [exact Hinvalid|].
  destruct (LifetimeBoundary_rejects_non_stack_operand
              (LocalValue (mkLocal "counter" PlainLocal)) false Hinvalid)
    as (_ & _ & _ & Hthrows & Hnone).
  split; [exact Hthrows | exact Hnone].
Defined.

Lemma sample_boundary_constructed :
  LifetimeBoundary_ctor (LocalValue (mkLocal "buffer" StackAllocation)) true
  = Returns sample_boundary.
Proof. reflexivity. Defined.

Lemma sample_boundary_invariant : LifetimeBoundary_invariant sample_boundary.
Proof.
  exact (LifetimeBoundary_ctor_invariant _ _ _ sample_boundary_constructed).
Defined.

Lemma LifetimeBoundary_lowering_throws_witness :
  LifetimeBoundary_invariant sample_boundary
  /\ LifetimeBoundary_convertToAsm sample_boundary ∅ ∅ 0
     = Throws (mkCompilationError CODE_GENERATION
                 "There should be no more lifetime instructions at this point"
                 "life-time for %buffer ends").
Proof.
  split; [exact sample_boundary_invariant|].
  destruct (LifetimeBoundary_lowering_throws sample_boundary ∅ ∅ 0
              sample_boundary_invariant) as (l & Harg & _ & Hthrows & _).
  injection Harg as <-. exact Hthrows.
Defined.

(** Two copies of the boundary, for two inlined instances. *)
Lemma copyFor_twice_independent_witness :
  node_invariant (LifetimeNode sample_boundary)
  /\ "inline0." <> "inline1."
  /\ exists address1 method1 heap1 address2 method2 heap2 copy1 copy2,
       copyFor (LifetimeNode sample_boundary) [] "inline0." [LifetimeNode sample_boundary]
       = Returns (address1, method1, heap1)
       /\ copyFor (LifetimeNode sample_boundary) method1 "inline1." heap1
          = Returns (address2, method2, heap2)
       /\ address1 <> address2
       /\ heap2 !! address1 = Some copy1
       /\ heap2 !! address2 = Some copy2
       /\ bound_local copy1 = Some (mkLocal "inline0.buffer" StackAllocation)
       /\ bound_local copy2 = Some (mkLocal "inline1.buffer" StackAllocation).
Proof.
  assert (Hprefix : "inline0." <> "inline1.") by discriminate.
  split; [exact sample_boundary_invariant|]. split; [exact Hprefix|].
  destruct (copyFor_twice_independent (LifetimeNode sample_boundary) []
              "inline0." "inline1." [LifetimeNode sample_boundary]
              sample_boundary_invariant Hprefix)
    as (a1 & m1 & h1 & a2 & m2 & h2 & c1 & c2 & Hc1 & Hc2 & _ & _ & Hne & Hat1 & Hat2
        & _ & _ & _ & _ & _ & _ & _ & Hlocals).
  destruct (Hlocals (mkLocal "buffer" StackAllocation) eq_refl) as (Hb1 & Hb2 & _).
  exists a1, m1, h1, a2, m2, h2, c1, c2. repeat split; assumption.
Defined.

(** * Further properties of the synchronization instructions *)

Lemma has_flag_lor_ignored (val extra flag : Z) :
  Z.land extra flag = 0 -> has_flag (Z.lor val extra) flag = has_flag val flag.
Proof.
  intros Hdisjoint. unfold has_flag.
  now rewrite Z.land_lor_distr_l, Hdisjoint, Z.lor_0_r.
Qed.

Lemma has_flag_lor_ignored_l (val extra flag : Z) :
  Z.land extra flag = 0 -> has_flag (Z.lor extra val) flag = has_flag val flag.
Proof. rewrite Z.lor_comm. apply has_flag_lor_ignored. Qed.

Lemma has_flag_zero (flag : Z) : flag <> 0 -> has_flag 0 flag = false.
Proof.
  intros Hflag. apply bool_decide_eq_false. rewrite Z.land_0_l.
  intros Heq. now apply Hflag.
Qed.

Section MoreProperties.

Context `{T : Target} {R : Rendering}.

(** X1: the constructor of LifetimeBoundary returns a node exactly for the
    operands that resolve to a stack allocation, and the node it returns
    gives the operand back through getStackAllocation, with the flag it was
    built with and no other argument. *)
Theorem LifetimeBoundary_ctor_accessor (allocation : Value) (lifetimeEnd : bool) :
  ((exists this, LifetimeBoundary_ctor allocation lifetimeEnd = Returns this)
   <-> resolves_to_stack_allocation allocation)
  /\ forall this,
       LifetimeBoundary_ctor allocation lifetimeEnd = Returns this ->
       getStackAllocation this = Returns allocation
       /\ isLifetimeEnd this = lifetimeEnd
       /\ arguments (lb_base this) = [allocation].
Proof.
  split.
  - split.
    + intros [this Hctor].
      apply LifetimeBoundary_ctor_returns in Hctor as (l & -> & Hstack & _).
      exists l. split; [reflexivity|]. now apply bool_decide_eq_true in Hstack.
    + intros (l & -> & Hclass). eexists. apply LifetimeBoundary_ctor_stack.
      now apply bool_decide_eq_true.
  - intros this Hctor.
    apply LifetimeBoundary_ctor_returns in Hctor as (l & -> & _ & Hargs & Hend).
    unfold getStackAllocation, getArgument. rewrite Hargs. now split.
Qed.

(** X2: the word of a scope tells the scope: two scopes that render to one
    word are the same enumerator. *)
Theorem toString_MemoryScope_injective (scope1 scope2 : MemoryScope) (word : string)
    (Hfirst : toString_MemoryScope scope1 = Returns word)
    (Hsecond : toString_MemoryScope scope2 = Returns word) :
  scope1 = scope2.
Proof.
  unfold toString_MemoryScope in Hfirst, Hsecond.
  repeat case_bool_decide; congruence.
Qed.

(** X3: bits of the semantics that belong to none of the nine flags tested
    do not show in the text. *)
Theorem toString_MemorySemantics_ignores_other_bits (sm extra : MemorySemantics)
    (Hextra : Forall (fun flag => Z.land extra flag = 0) semantics_enumerators) :
  toString_MemorySemantics (Z.lor sm extra) = toString_MemorySemantics sm.
Proof.
  unfold semantics_enumerators in Hextra.
  repeat (apply Forall_cons in Hextra as [? Hextra]).
  unfold toString_MemorySemantics.
  now rewrite !has_flag_lor_ignored by assumption.
Qed.

(** X4: the flag ACQUIRE_RELEASE renders as the two flags ACQUIRE and RELEASE
    together do, whatever else is set: the text does not tell them apart. *)
Theorem toString_MemorySemantics_acquire_release (rest : MemorySemantics)
    (Hflags : disjoint_flags semantics_enumerators) :
  toString_MemorySemantics (Z.lor ACQUIRE_RELEASE rest)
  = toString_MemorySemantics (Z.lor (Z.lor ACQUIRE RELEASE) rest).
Proof.
  unfold semantics_enumerators in Hflags. cbn [disjoint_flags] in Hflags.
  repeat rewrite Forall_cons in Hflags. rewrite Forall_nil in Hflags.
  repeat match goal with
         | H : _ /\ _ |- _ => destruct H
         end.
  assert (Hacquire : has_flag (Z.lor (Z.lor ACQUIRE RELEASE) rest) ACQUIRE = true).
  { rewrite <- Z.lor_assoc. apply has_flag_lor_l. }
  assert (Hrelease : has_flag (Z.lor (Z.lor ACQUIRE RELEASE) rest) RELEASE = true).
  { rewrite (Z.lor_comm ACQUIRE), <- Z.lor_assoc. apply has_flag_lor_l. }
  unfold toString_MemorySemantics.
  rewrite Hacquire, Hrelease, (has_flag_lor_l ACQUIRE_RELEASE rest), !orb_true_r.
  cbn [orb].
  rewrite !(has_flag_lor_ignored_l rest ACQUIRE_RELEASE) by assumption.
  rewrite !(has_flag_lor_ignored_l rest (Z.lor ACQUIRE RELEASE))
    by (rewrite Z.land_lor_distr_l; apply Z.lor_eq_0_iff; split; assumption).
  reflexivity.
Qed.

(** X5: a barrier without semantics renders with nothing after the comma:
    no flag being empty, the text is "mem-fence", the scope word, ", " and
    the annotation text. *)
Theorem MemoryBarrier_render_no_semantics (this : MemoryBarrier) (word : string)
    (Hflags : Forall (fun flag => flag <> 0) semantics_enumerators)
    (Hnone : semantics this = 0)
    (Hword : toString_MemoryScope (scope this) = Returns word) :
  MemoryBarrier_to_string this
  = Returns ("mem-fence " +:+ word +:+ ", " +:+ createAdditionalInfoString (mb_base this)).
Proof.
  unfold semantics_enumerators in Hflags.
  repeat (apply Forall_cons in Hflags as [? Hflags]).
  unfold MemoryBarrier_to_string. rewrite Hword, Hnone.
  unfold mbind, Outcome_bind, toString_MemorySemantics.
  rewrite !has_flag_zero by assumption. cbn [orb].
  unfold join. cbn [String.concat]. now rewrite !append_assoc.
Qed.

End MoreProperties.

(** * Properties of the profiler *)

(** ** The order of names *)

Lemma string_compare_refl (s : string) : String.compare s s = Eq.
Proof.
  induction s as [|ch s IH]; simpl; [reflexivity|].
  unfold Ascii.compare. now rewrite N.compare_refl.
Qed.

Lemma string_ltb_leb (a b : string) :
  String.ltb a b = true <-> String.leb a b = true /\ a <> b.
Proof.
  unfold String.ltb, String.leb.
  destruct (String.compare a b) eqn:Hcmp; split; try (intros [? ?]); try discriminate.
  - apply String.compare_eq_iff in Hcmp. congruence.
  - intros _. split; [reflexivity|]. intros ->.
    rewrite string_compare_refl in Hcmp. discriminate.
  - reflexivity.
Qed.

Lemma string_ltb_irrefl (a : string) : String.ltb a a = false.
Proof. unfold String.ltb. now rewrite string_compare_refl. Qed.

Lemma string_ltb_trans (a b c : string) :
  String.ltb a b = true -> String.ltb b c = true -> String.ltb a c = true.
Proof.
  rewrite !string_ltb_leb. intros [Hab Hne] [Hbc _].
  assert (Hle_ab : String.le a b) by (unfold String.le; now rewrite Hab).
  assert (Hle_bc : String.le b c) by (unfold String.le; now rewrite Hbc).
  split.
  - pose proof (transitivity Hle_ab Hle_bc) as Hac.
    unfold String.le in Hac. now apply Is_true_true in Hac.
  - intros ->. apply Hne. now apply (anti_symm String.le).
Qed.

Lemma string_ltb_total (a b : string) :
  String.ltb a b = false -> String.ltb b a = false -> a = b.
Proof.
  unfold String.ltb. rewrite (String.compare_antisym b a).
  destruct (String.compare a b) eqn:Hcmp; simpl; try discriminate.
  intros _ _. now apply String.compare_eq_iff.
Qed.

(** ** The order of the rows *)

(** X7: [Entry::operator<] is a strict weak order: no row is before itself,
    the order is transitive, and two rows are in neither order exactly when
    they have the same duration and the same name. *)
Theorem Entry_less_strict_weak_order :
  (forall a, profiler.Entry_less a a = false)
  /\ (forall a b c, profiler.Entry_less a b = true -> profiler.Entry_less b c = true ->
                    profiler.Entry_less a c = true)
  /\ (forall a b, (profiler.Entry_less a b = false /\ profiler.Entry_less b a = false)
                  <-> (profiler.duration a = profiler.duration b
                       /\ profiler.name a = profiler.name b)).
Proof.
  unfold profiler.Entry_less. split; [|split].
  - intros a. rewrite bool_decide_eq_true_2 by reflexivity. apply string_ltb_irrefl.
  - intros a b c. repeat case_bool_decide; intros Hab Hbc;
      first [ discriminate | reflexivity | exfalso; lia | exfalso; congruence
            | eapply string_ltb_trans; eassumption ].
  - intros a b. split.
    + repeat case_bool_decide; intros [Hab Hba];
        first [ discriminate | exfalso; lia
              | split; [assumption|]; symmetry; now apply string_ltb_total ].
    + intros [Hd Hn]. rewrite !bool_decide_eq_true_2 by congruence.
      rewrite Hn. split; apply string_ltb_irrefl.
Qed.

(** X8: [Counter::operator<] is a strict weak order that puts counters of
    different indices in the order of the indices, whatever their names. *)
Theorem Counter_less_strict_weak_order :
  (forall a, profiler.Counter_less a a = false)
  /\ (forall a b c, profiler.Counter_less a b = true -> profiler.Counter_less b c = true ->
                    profiler.Counter_less a c = true)
  /\ (forall a b, profiler.index a <> profiler.index b ->
                  profiler.Counter_less a b = bool_decide (profiler.index a < profiler.index b)%N)
  /\ (forall a b, (profiler.Counter_less a b = false /\ profiler.Counter_less b a = false)
                  <-> (profiler.index a = profiler.index b
                       /\ profiler.cname a = profiler.cname b)).
Proof.
  unfold profiler.Counter_less. split; [|split; [|split]].
  - intros a. rewrite bool_decide_eq_true_2 by reflexivity. apply string_ltb_irrefl.
  - intros a b c. repeat case_bool_decide; intros Hab Hbc;
      first [ discriminate | reflexivity | exfalso; lia | exfalso; congruence
            | eapply string_ltb_trans; eassumption ].
  - intros a b Hne. now rewrite (bool_decide_eq_false_2 _ Hne).
  - intros a b. split.
    + repeat case_bool_decide; intros [Hab Hba];
        first [ discriminate | exfalso; lia
              | split; [assumption|]; symmetry; now apply string_ltb_total ].
    + intros [Hi Hn]. rewrite !bool_decide_eq_true_2 by congruence.
      rewrite Hn. split; apply string_ltb_irrefl.
Qed.

(** ** The set of rows that is written *)

Section SetEmplace.

Context {A : Type} (less : A -> A -> bool).

Hypothesis less_irrefl : forall a, less a a = false.
Hypothesis less_trans :
  forall a b c, less a b = true -> less b c = true -> less a c = true.

Lemma set_emplace_elem (x z : A) (set : list A) :
  z ∈ profiler.set_emplace less x set -> z = x \/ z ∈ set.
Proof.
  induction set as [|y rest IH]; simpl.
  - intros Hz. apply list_elem_of_singleton in Hz. now left.
  - destruct (less x y); [|destruct (less y x)]; rewrite !elem_of_cons.
    + intros [-> | [-> | Hz]]; auto.
    + intros [-> | Hz]; [auto|]. destruct (IH Hz); auto.
    + intros [-> | Hz]; auto.
Qed.

Lemma set_emplace_keeps (x z : A) (set : list A) :
  z ∈ set -> z ∈ profiler.set_emplace less x set.
Proof.
  induction set as [|y rest IH]; simpl; [intros Hz; now apply elem_of_nil in Hz|].
  destruct (less x y); [|destruct (less y x)]; rewrite !elem_of_cons.
  - intros [-> | Hz]; auto.
  - intros [-> | Hz]; auto.
  - intros [-> | Hz]; auto.
Qed.

Lemma set_emplace_covers (x : A) (set : list A) :
  exists y, y ∈ profiler.set_emplace less x set /\ less x y = false /\ less y x = false.
Proof.
  induction set as [|y rest IH]; simpl.
  - exists x. split; [apply list_elem_of_singleton; reflexivity | auto].
  - destruct (less x y) eqn:Hxy; [|destruct (less y x) eqn:Hyx].
    + exists x. split; [apply elem_of_cons; now left | auto].
    + destruct IH as (z & Hz & Hxz & Hzx). exists z.
      split; [apply elem_of_cons; now right | auto].
    + exists y. split; [apply elem_of_cons; now left | auto].
Qed.

Lemma set_emplace_sorted (x : A) (set : list A) :
  StronglySorted (fun a b => less a b = true) set ->
  StronglySorted (fun a b => less a b = true) (profiler.set_emplace less x set).
Proof.
  induction set as [|y rest IH]; simpl; intros Hsorted.
  - repeat constructor.
  - apply StronglySorted_inv in Hsorted as [Hrest Hy].
    destruct (less x y) eqn:Hxy; [|destruct (less y x) eqn:Hyx].
    + constructor; [constructor; assumption|].
      constructor; [exact Hxy|].
      eapply Forall_impl; [exact Hy|]. intros z Hyz. now apply (less_trans x y z).
    + constructor; [now apply IH|].
      apply Forall_forall. intros z Hz. apply set_emplace_elem in Hz as [-> | Hz];
        [exact Hyx|]. rewrite Forall_forall in Hy. now apply Hy.
    + now constructor.
Qed.

Lemma set_emplace_length_le (x : A) (set : list A) :
  (List.length (profiler.set_emplace less x set) <= S (List.length set))%nat.
Proof.
  induction set as [|y rest IH]; simpl; [lia|].
  destruct (less x y); [|destruct (less y x)]; simpl; lia.
Qed.

Lemma set_emplace_length_new (x : A) (set : list A) :
  (forall y, y ∈ set -> less x y = true \/ less y x = true) ->
  List.length (profiler.set_emplace less x set) = S (List.length set).
Proof.
  induction set as [|y rest IH]; simpl; intros Hcomparable; [reflexivity|].
  destruct (less x y) eqn:Hxy; [|destruct (less y x) eqn:Hyx]; simpl.
  - reflexivity.
  - rewrite IH; [reflexivity|]. intros z Hz. apply Hcomparable, elem_of_cons. now right.
  - destruct (Hcomparable y) as [H | H]; [apply elem_of_cons; now left | congruence..].
Qed.

(** The rows of a table, taken one after the other. *)
Lemma emplace_rows_sorted {K : Type} (rows : list (K * A)) (set : list A) :
  StronglySorted (fun a b => less a b = true) set ->
  StronglySorted (fun a b => less a b = true)
    (foldl (fun set row => profiler.set_emplace less row.2 set) set rows).
Proof.
  revert set. induction rows as [|row rows IH]; simpl; intros set Hsorted;
    [assumption|]. now apply IH, set_emplace_sorted.
Qed.

Lemma emplace_rows_elem {K : Type} (rows : list (K * A)) (set : list A) (z : A) :
  z ∈ foldl (fun set row => profiler.set_emplace less row.2 set) set rows ->
  z ∈ set \/ exists row, row ∈ rows /\ z = row.2.
Proof.
  revert set. induction rows as [|row rows IH]; simpl; intros set Hz; [now left|].
  destruct (IH _ Hz) as [Hset | (row' & Hrow' & ->)].
  - apply set_emplace_elem in Hset as [-> | Hset]; [|now left].
    right. exists row. split; [apply elem_of_cons; now left | reflexivity].
  - right. exists row'. split; [apply elem_of_cons; now right | reflexivity].
Qed.

Lemma emplace_rows_keeps {K : Type} (rows : list (K * A)) (set : list A) (z : A) :
  z ∈ set -> z ∈ foldl (fun set row => profiler.set_emplace less row.2 set) set rows.
Proof.
  revert set. induction rows as [|row rows IH]; simpl; intros set Hz; [assumption|].
  now apply IH, set_emplace_keeps.
Qed.

Lemma emplace_rows_covers {K : Type} (rows : list (K * A)) (set : list A) (row : K * A) :
  row ∈ rows ->
  exists y, y ∈ foldl (fun set row => profiler.set_emplace less row.2 set) set rows
            /\ less row.2 y = false /\ less y row.2 = false.
Proof.
  revert set. induction rows as [|first rows IH]; simpl; intros set Hrow;
    [now apply elem_of_nil in Hrow|].
  apply elem_of_cons in Hrow as [-> | Hrow]; [|now apply IH].
  destruct (set_emplace_covers first.2 set) as (y & Hy & Hxy & Hyx).
  exists y. split; [now apply emplace_rows_keeps | auto].
Qed.

Lemma emplace_rows_length_le {K : Type} (rows : list (K * A)) (set : list A) :
  (List.length (foldl (fun set row => profiler.set_emplace less row.2 set) set rows)
   <= List.length set + List.length rows)%nat.
Proof.
  revert set. induction rows as [|row rows IH]; simpl; intros set; [lia|].
  specialize (IH (profiler.set_emplace less row.2 set)).
  pose proof (set_emplace_length_le row.2 set). lia.
Qed.

Lemma emplace_rows_length_all {K : Type} (rows : list (K * A)) (set : list A) :
  ForallOrdPairs (fun r1 r2 => less r1.2 r2.2 = true \/ less r2.2 r1.2 = true) rows ->
  (forall row y, row ∈ rows -> y ∈ set -> less row.2 y = true \/ less y row.2 = true) ->
  List.length (foldl (fun set row => profiler.set_emplace less row.2 set) set rows)
  = (List.length set + List.length rows)%nat.
Proof.
  revert set. induction rows as [|row rows IH]; simpl; intros set Hpairs Hset; [lia|].
  inversion Hpairs as [|? ? Hfirst Hrest]; subst.
  rewrite IH.
  - rewrite set_emplace_length_new; [lia|].
    intros y Hy. apply (Hset row y); [apply elem_of_cons; now left | exact Hy].
  - exact Hrest.
  - intros row' y Hrow' Hy. apply set_emplace_elem in Hy as [-> | Hy].
    + rewrite List.Forall_forall in Hfirst.
      destruct (Hfirst row') as [H | H]; [now apply list_elem_of_In | auto..].
    + apply (Hset row' y); [apply elem_of_cons; now right | exact Hy].
Qed.

End SetEmplace.

Lemma StronglySorted_impl_elem {A : Type} (R R' : A -> A -> Prop) (l : list A) :
  StronglySorted R l ->
  (forall a b, a ∈ l -> b ∈ l -> R a b -> R' a b) ->
  StronglySorted R' l.
Proof.
  induction l as [|x l IH]; intros Hsorted Himpl; [constructor|].
  apply StronglySorted_inv in Hsorted as [Hl Hx]. constructor.
  - apply IH; [exact Hl|]. intros a b Ha Hb. apply Himpl; apply elem_of_cons; now right.
  - apply Forall_forall. intros y Hy. rewrite Forall_forall in Hx.
    apply Himpl; [apply elem_of_cons; now left | apply elem_of_cons; now right | auto].
Qed.

Lemma Entry_less_irrefl (a : profiler.Entry) : profiler.Entry_less a a = false.
Proof.
  unfold profiler.Entry_less. rewrite bool_decide_eq_true_2 by reflexivity.
  apply string_ltb_irrefl.
Qed.

Lemma Entry_less_trans (a b c : profiler.Entry) :
  profiler.Entry_less a b = true -> profiler.Entry_less b c = true ->
  profiler.Entry_less a c = true.
Proof.
  unfold profiler.Entry_less. repeat case_bool_decide; intros Hab Hbc;
    first [ discriminate | reflexivity | exfalso; lia | exfalso; congruence
          | eapply string_ltb_trans; eassumption ].
Qed.

Lemma Entry_less_neither (a b : profiler.Entry) :
  profiler.Entry_less a b = false -> profiler.Entry_less b a = false ->
  profiler.duration a = profiler.duration b /\ profiler.name a = profiler.name b.
Proof.
  unfold profiler.Entry_less. repeat case_bool_decide; intros Hab Hba;
    first [ discriminate | exfalso; lia
          | split; [assumption|]; symmetry; now apply string_ltb_total ].
Qed.

Lemma Counter_less_irrefl (a : profiler.Counter) : profiler.Counter_less a a = false.
Proof.
  unfold profiler.Counter_less. rewrite bool_decide_eq_true_2 by reflexivity.
  apply string_ltb_irrefl.
Qed.

Lemma Counter_less_trans (a b c : profiler.Counter) :
  profiler.Counter_less a b = true -> profiler.Counter_less b c = true ->
  profiler.Counter_less a c = true.
Proof.
  unfold profiler.Counter_less. repeat case_bool_decide; intros Hab Hbc;
    first [ discriminate | reflexivity | exfalso; lia | exfalso; congruence
          | eapply string_ltb_trans; eassumption ].
Qed.

Lemma Counter_less_by_index (a b : profiler.Counter) :
  profiler.index a <> profiler.index b ->
  profiler.Counter_less a b = bool_decide (profiler.index a < profiler.index b)%N.
Proof.
  intros Hne. unfold profiler.Counter_less. now rewrite (bool_decide_eq_false_2 _ Hne).
Qed.

Lemma Counter_less_neither (a b : profiler.Counter) :
  profiler.Counter_less a b = false -> profiler.Counter_less b a = false ->
  profiler.index a = profiler.index b.
Proof.
  unfold profiler.Counter_less. repeat case_bool_decide; intros Hab Hba;
    first [ discriminate | exfalso; lia | assumption ].
Qed.

(** X9: the report of the functions is in the order of [Entry::operator<],
    the longest duration first; its rows are rows of the table, and every
    row of the table has a row of its duration and name in the report.  Rows
    that agree on duration and name are written once, so the report can
    have fewer rows than the table. *)
Theorem dumpProfileResults_functions (st : profiler.State) :
  exists report,
    (profiler.dumpProfileResults true st).1 = Some report
    /\ StronglySorted (fun a b => profiler.Entry_less a b = true)
         (profiler.functions report)
    /\ StronglySorted (fun a b => profiler.duration b <= profiler.duration a)
         (profiler.functions report)
    /\ (forall entry, entry ∈ profiler.functions report ->
          exists key, profiler.times st !! key = Some entry)
    /\ (forall key entry, profiler.times st !! key = Some entry ->
          exists row, row ∈ profiler.functions report
                      /\ profiler.duration row = profiler.duration entry
                      /\ profiler.name row = profiler.name entry)
    /\ (List.length (profiler.functions report) <= size (profiler.times st))%nat.
Proof.
  eexists. split; [reflexivity|]. cbn [profiler.functions].
  assert (Hsorted : StronglySorted (fun a b => profiler.Entry_less a b = true)
            (foldl (fun set row => profiler.set_emplace profiler.Entry_less row.2 set) []
               (map_to_list (profiler.times st)))).
  { apply emplace_rows_sorted; [exact Entry_less_trans | constructor]. }
  split; [exact Hsorted|]. split; [|split; [|split]].
  - eapply StronglySorted_impl_elem; [exact Hsorted|].
    intros a b _ _. unfold profiler.Entry_less. repeat case_bool_decide; intros; lia.
  - intros entry Hentry. apply emplace_rows_elem in Hentry as [Hnil | ([key e] & Hrow & ->)].
    + now apply elem_of_nil in Hnil.
    + exists key. now apply elem_of_map_to_list.
  - intros key entry Hlookup. apply elem_of_map_to_list in Hlookup.
    destruct (emplace_rows_covers profiler.Entry_less Entry_less_irrefl _ [] _ Hlookup)
      as (row & Hrow & Hless1 & Hless2).
    exists row. split; [exact Hrow|]. simpl in Hless1, Hless2.
    destruct (Entry_less_neither _ _ Hless1 Hless2) as [Hd Hn]. now split.
  - rewrite <- length_map_to_list.
    apply (emplace_rows_length_le profiler.Entry_less (map_to_list (profiler.times st)) []).
Qed.

Lemma indexed_rows_comparable (rows : list (N * profiler.Counter)) :
  NoDup rows.*1 ->
  (forall row, row ∈ rows -> profiler.index row.2 = row.1) ->
  ForallOrdPairs (fun r1 r2 => profiler.Counter_less r1.2 r2.2 = true
                               \/ profiler.Counter_less r2.2 r1.2 = true) rows.
Proof.
  induction rows as [|row rows IH]; intros Hnodup Hindexed; [constructor|].
  rewrite fmap_cons in Hnodup. apply NoDup_cons in Hnodup as [Hfresh Hnodup].
  constructor.
  - apply List.Forall_forall. intros row' Hrow'. apply list_elem_of_In in Hrow'.
    assert (Hne : profiler.index row.2 <> profiler.index row'.2).
    { rewrite (Hindexed row), (Hindexed row') by (apply elem_of_cons; auto).
      intros Heq. apply Hfresh. rewrite Heq. now apply list_elem_of_fmap_2. }
    rewrite !Counter_less_by_index by congruence.
    destruct (N.lt_total (profiler.index row.2) (profiler.index row'.2)) as [H | [H | H]];
      [left | congruence | right]; now apply bool_decide_eq_true.
  - apply IH; [exact Hnodup|]. intros row' Hrow'. apply Hindexed, elem_of_cons. now right.
Qed.

(** X10: when every counter of the table sits under its own index, the
    report of the counters has exactly the rows of the table, each once, in
    the order of their indices. *)
Theorem dumpProfileResults_counts (st : profiler.State)
    (Hindexed : profiler.counters_indexed (profiler.counters st)) :
  exists report,
    (profiler.dumpProfileResults true st).1 = Some report
    /\ List.length (profiler.counts report) = size (profiler.counters st)
    /\ StronglySorted (fun a b => (profiler.index a < profiler.index b)%N)
         (profiler.counts report)
    /\ (forall counter, counter ∈ profiler.counts report <->
          exists key, profiler.counters st !! key = Some counter).
Proof.
  eexists. split; [reflexivity|]. cbn [profiler.counts].
  set (rows := map_to_list (profiler.counters st)).
  assert (Hrows : forall row, row ∈ rows -> profiler.index row.2 = row.1).
  { intros [key counter] Hrow. apply elem_of_map_to_list in Hrow. now apply Hindexed. }
  assert (Hfrom : forall counter,
            counter ∈ foldl (fun set row => profiler.set_emplace profiler.Counter_less
                                             row.2 set) [] rows ->
            exists key, profiler.counters st !! key = Some counter).
  { intros counter Hin. apply emplace_rows_elem in Hin as [Hnil | ([key c] & Hrow & ->)].
    - now apply elem_of_nil in Hnil.
    - exists key. now apply elem_of_map_to_list. }
  split; [|split].
  - rewrite <- length_map_to_list. fold rows.
    rewrite (emplace_rows_length_all profiler.Counter_less rows []); [reflexivity | |].
    + apply indexed_rows_comparable; [apply NoDup_fst_map_to_list | exact Hrows].
    + intros row y _ Hy. now apply elem_of_nil in Hy.
  - eapply StronglySorted_impl_elem.
    + apply (emplace_rows_sorted profiler.Counter_less Counter_less_trans rows []).
      constructor.
    + intros a b Ha Hb Hless. simpl in Hless.
      destruct (decide (profiler.index a = profiler.index b)) as [Heq | Hne].
      * exfalso. destruct (Hfrom a Ha) as [ka Hka]. destruct (Hfrom b Hb) as [kb Hkb].
        assert (ka = kb) by (rewrite <- (Hindexed _ _ Hka), <- (Hindexed _ _ Hkb); exact Heq).
        subst kb. assert (a = b) by congruence. subst b.
        rewrite Counter_less_irrefl in Hless. discriminate.
      * rewrite (Counter_less_by_index _ _ Hne) in Hless.
        now apply bool_decide_eq_true in Hless.
  - intros counter. split; [apply Hfrom|].
    intros [key Hkey]. apply elem_of_map_to_list in Hkey. fold rows in Hkey.
    destruct (emplace_rows_covers profiler.Counter_less Counter_less_irrefl rows [] _ Hkey)
      as (y & Hy & Hless1 & Hless2).
    simpl in Hless1, Hless2.
    pose proof (Counter_less_neither _ _ Hless1 Hless2) as Hsame.
    destruct (Hfrom y Hy) as [ky Hky].
    apply elem_of_map_to_list in Hkey.
    assert (key = ky) by (rewrite <- (Hindexed _ _ Hkey), <- (Hindexed _ _ Hky); exact Hsame).
    subst ky. assert (counter = y) by congruence. now subst y.
Qed.

(** ** Measurements add up *)

Lemma int64_add_l (a b : Z) : profiler.int64 (profiler.int64 a + b) = profiler.int64 (a + b).
Proof.
  unfold profiler.int64.
  replace ((a + 2 ^ 63) mod 2 ^ 64 - 2 ^ 63 + b + 2 ^ 63)
    with ((a + 2 ^ 63) mod 2 ^ 64 + b) by lia.
  rewrite Zplus_mod_idemp_l. f_equal. f_equal. lia.
Qed.

Lemma uint64_add_l (a b : Z) :
  profiler.uint64 (profiler.uint64 a + b) = profiler.uint64 (a + b).
Proof. unfold profiler.uint64. apply Zplus_mod_idemp_l. Qed.

Lemma measured_call_at (key : N) (nm file : string) (line : N) (st : profiler.State)
    (elapsed : Z) :
  let before := default profiler.Entry_zero
                  (profiler.Entry_at (profiler.active_table st, key) st) in
  let after := profiler.measured_call key nm file line st elapsed in
  profiler.active_table after = profiler.active_table st
  /\ profiler.Entry_at (profiler.active_table st, key) after
     = Some (profiler.mkEntry nm
               (profiler.int64 (profiler.duration before + elapsed))
               (profiler.uint64 (profiler.invocations before + 1)) file line).
Proof.
  unfold profiler.measured_call, profiler.createEntry, profiler.active_table,
    profiler.Entry_at.
  destruct (profiler.threadCache st) as [cache|] eqn:Hcache; simpl.
  - split; [reflexivity|]. now rewrite lookup_alter_eq, lookup_insert_eq.
  - split; [reflexivity|]. now rewrite lookup_alter_eq, lookup_insert_eq.
Qed.

Lemma measured_calls_from (key : N) (nm file : string) (line : N) (times : list Z) :
  forall (st : profiler.State) (d i : Z),
    profiler.Entry_at (profiler.active_table st, key) st
    = Some (profiler.mkEntry nm (profiler.int64 d) (profiler.uint64 i) file line) ->
    profiler.Entry_at (profiler.active_table st, key)
      (foldl (profiler.measured_call key nm file line) st times)
    = Some (profiler.mkEntry nm (profiler.int64 (d + foldr Z.add 0 times))
              (profiler.uint64 (i + Z.of_nat (List.length times))) file line).
Proof.
  induction times as [|elapsed rest IH]; intros st d i Hat.
  - simpl foldl. rewrite Hat. simpl foldr. simpl List.length.
    now rewrite !Z.add_0_r.
  - simpl foldl.
    destruct (measured_call_at key nm file line st elapsed) as [Htable Hafter].
    rewrite Hat in Hafter. simpl in Hafter.
    rewrite int64_add_l, uint64_add_l in Hafter.
    rewrite <- Htable in Hafter |- *.
    rewrite (IH _ _ _ Hafter). simpl foldr. simpl List.length.
    do 2 f_equal; f_equal; lia.
Qed.

(** X11: measured calls of one function add up: after the calls of a
    non-empty sequence, the row of the function, in the table the thread
    writes to, has the name, file and line of the call, a duration that is
    the earlier duration plus all measurements, wrapped to 64 bits, and as
    many more invocations as there were calls; a row that was not there
    before starts from zero. *)
Theorem measured_calls_accumulate (key : N) (nm file : string) (line : N)
    (st : profiler.State) (first : Z) (rest : list Z) :
  let before := default profiler.Entry_zero
                  (profiler.Entry_at (profiler.active_table st, key) st) in
  profiler.Entry_at (profiler.active_table st, key)
    (foldl (profiler.measured_call key nm file line) st (first :: rest))
  = Some (profiler.mkEntry nm
            (profiler.int64 (profiler.duration before + foldr Z.add 0 (first :: rest)))
            (profiler.uint64 (profiler.invocations before
                              + Z.of_nat (List.length (first :: rest))))
            file line).
Proof.
  intros before. simpl foldl.
  destruct (measured_call_at key nm file line st first) as [Htable Hafter].
  fold before in Hafter. rewrite <- Htable in Hafter |- *.
  rewrite (measured_calls_from key nm file line rest _ _ _ Hafter).
  simpl foldr. simpl List.length. do 2 f_equal; f_equal; lia.
Qed.

Lemma counted_at (idx : N) (nm file : string) (line prevIndex : N)
    (st : profiler.State) (value : Z) :
  let before := default profiler.Counter_zero
                  (profiler.Counter_at (profiler.active_table st, idx) st) in
  let after := profiler.counted idx nm file line prevIndex st value in
  profiler.active_table after = profiler.active_table st
  /\ profiler.Counter_at (profiler.active_table st, idx) after
     = Some (profiler.mkCounter nm
               (profiler.uint64 (profiler.count before + value)) idx
               (profiler.uint64 (profiler.cinvocations before + 1))
               prevIndex file line).
Proof.
  unfold profiler.counted, profiler.createCounter, profiler.active_table,
    profiler.Counter_at.
  destruct (profiler.threadCache st) as [cache|] eqn:Hcache; simpl.
  - split; [reflexivity|]. now rewrite lookup_alter_eq, lookup_insert_eq.
  - split; [reflexivity|]. now rewrite lookup_alter_eq, lookup_insert_eq.
Qed.

Lemma counted_from (idx : N) (nm file : string) (line prevIndex : N) (values : list Z) :
  forall (st : profiler.State) (c i : Z),
    profiler.Counter_at (profiler.active_table st, idx) st
    = Some (profiler.mkCounter nm (profiler.uint64 c) idx (profiler.uint64 i)
              prevIndex file line) ->
    profiler.Counter_at (profiler.active_table st, idx)
      (foldl (profiler.counted idx nm file line prevIndex) st values)
    = Some (profiler.mkCounter nm (profiler.uint64 (c + foldr Z.add 0 values)) idx
              (profiler.uint64 (i + Z.of_nat (List.length values)))
              prevIndex file line).
Proof.
  induction values as [|value rest IH]; intros st c i Hat.
  - simpl foldl. rewrite Hat. simpl foldr. simpl List.length.
    now rewrite !Z.add_0_r.
  - simpl foldl.
    destruct (counted_at idx nm file line prevIndex st value) as [Htable Hafter].
    rewrite Hat in Hafter. simpl in Hafter.
    rewrite !uint64_add_l in Hafter.
    rewrite <- Htable in Hafter |- *.
    rewrite (IH _ _ _ Hafter). simpl foldr. simpl List.length.
    do 2 f_equal; f_equal; lia.
Qed.

(** X12: counting adds up: after a non-empty sequence of increases of one
    counter, its row, in the table the thread writes to, sits under its
    index with the name, predecessor, file and line of the call; its count
    is the earlier count plus all values, modulo 2^64, and it has as many
    more invocations as there were increases. *)
Theorem counted_values_accumulate (idx : N) (nm file : string) (line prevIndex : N)
    (st : profiler.State) (first : Z) (rest : list Z) :
  let before := default profiler.Counter_zero
                  (profiler.Counter_at (profiler.active_table st, idx) st) in
  profiler.Counter_at (profiler.active_table st, idx)
    (foldl (profiler.counted idx nm file line prevIndex) st (first :: rest))
  = Some (profiler.mkCounter nm
            (profiler.uint64 (profiler.count before + foldr Z.add 0 (first :: rest)))
            idx
            (profiler.uint64 (profiler.cinvocations before
                              + Z.of_nat (List.length (first :: rest))))
            prevIndex file line).
Proof.
  intros before. simpl foldl.
  destruct (counted_at idx nm file line prevIndex st first) as [Htable Hafter].
  fold before in Hafter. rewrite <- Htable in Hafter |- *.
  rewrite (counted_from idx nm file line prevIndex rest _ _ _ Hafter).
  simpl foldr. simpl List.length. do 2 f_equal; f_equal; lia.
Qed.

(** ** Flushing the cache of a thread *)

Lemma flush_rows_lookup {V : Type} (add : V -> V -> V)
    (flush : gmap N V -> N * V -> gmap N V)
    (Hflush : forall global row,
        flush global row = match global !! row.1 with
                           | Some found => <[row.1 := add found row.2]> global
                           | None => <[row.1 := row.2]> global
                           end)
    (rows : list (N * V)) :
  forall (global : gmap N V) (key : N),
    NoDup rows.*1 ->
    foldl flush global rows !! key
    = match (list_to_map rows : gmap N V) !! key with
      | Some row => Some (match global !! key with
                          | Some found => add found row
                          | None => row
                          end)
      | None => global !! key
      end.
Proof.
  induction rows as [|[k v] rows IH]; intros global key Hnodup.
  - simpl. now rewrite lookup_empty.
  - rewrite fmap_cons in Hnodup. apply NoDup_cons in Hnodup as [Hfresh Hnodup].
    simpl foldl. rewrite (IH _ key Hnodup). rewrite list_to_map_cons.
    destruct (decide (k = key)) as [-> | Hne].
    + rewrite lookup_insert_eq.
      rewrite (proj1 (not_elem_of_list_to_map rows key)) by exact Hfresh.
      rewrite Hflush. simpl.
      destruct (global !! key); now rewrite lookup_insert_eq.
    + rewrite (lookup_insert_ne _ k key) by exact Hne.
      assert (Hsame : flush global (k, v) !! key = global !! key).
      { rewrite Hflush. simpl.
        destruct (global !! k); now rewrite lookup_insert_ne. }
      now rewrite Hsame.
Qed.

(** X13: destroying the cache of a thread adds its rows to the global
    tables: a key the cache and the table both have keeps the name, file
    and line of the table and gets the sum of the two durations (or counts)
    and of the two invocation counts, wrapped to 64 bits; a key only the
    cache has moves its row to the table; the other rows stay. *)
Theorem ThreadResultCache_dtor_lookup (cache : profiler.ThreadResultCache)
    (times : gmap N profiler.Entry) (counters : gmap N profiler.Counter) (key : N) :
  (profiler.ThreadResultCache_dtor cache (times, counters)).1 !! key
  = match profiler.localTimes cache !! key with
    | Some row => Some (match times !! key with
                        | Some found => profiler.Entry_add found row
                        | None => row
                        end)
    | None => times !! key
    end
  /\ (profiler.ThreadResultCache_dtor cache (times, counters)).2 !! key
     = match profiler.localCounters cache !! key with
       | Some row => Some (match counters !! key with
                           | Some found => profiler.Counter_add found row
                           | None => row
                           end)
       | None => counters !! key
       end.
Proof.
  unfold profiler.ThreadResultCache_dtor. simpl. split.
  - rewrite (flush_rows_lookup profiler.Entry_add profiler.flush_entry)
      by (reflexivity || apply NoDup_fst_map_to_list).
    now rewrite list_to_map_to_list.
  - rewrite (flush_rows_lookup profiler.Counter_add profiler.flush_counter)
      by (reflexivity || apply NoDup_fst_map_to_list).
    now rewrite list_to_map_to_list.
Qed.

Lemma dtor_into_empty (cache : profiler.ThreadResultCache) :
  profiler.ThreadResultCache_dtor cache (∅, ∅)
  = (profiler.localTimes cache, profiler.localCounters cache).
Proof.
  unfold profiler.ThreadResultCache_dtor. simpl. f_equal; apply map_eq; intros key.
  - rewrite (flush_rows_lookup profiler.Entry_add profiler.flush_entry)
      by (reflexivity || apply NoDup_fst_map_to_list).
    rewrite list_to_map_to_list, lookup_empty. now destruct (_ !! key).
  - rewrite (flush_rows_lookup profiler.Counter_add profiler.flush_counter)
      by (reflexivity || apply NoDup_fst_map_to_list).
    rewrite list_to_map_to_list, lookup_empty. now destruct (_ !! key).
Qed.

(** X14: a dump reports rows of the global tables only and leaves the
    cache of the thread alone: every row of the report is a row of the
    global tables, the report is the same whatever the thread has cached,
    the global tables are empty afterwards whether or not the report is
    written, and when the cache is replaced afterwards its rows are the
    rows of the global tables. *)
Theorem dumpProfileResults_keeps_thread_cache (logEnabled : bool)
    (st : profiler.State) (cache : profiler.ThreadResultCache)
    (Hcache : profiler.threadCache st = Some cache) :
  let dumped := (profiler.dumpProfileResults logEnabled st).2 in
  (forall report,
     (profiler.dumpProfileResults logEnabled st).1 = Some report ->
     (forall entry, entry ∈ profiler.functions report ->
        exists key, profiler.times st !! key = Some entry)
     /\ (forall counter, counter ∈ profiler.counts report ->
           exists key, profiler.counters st !! key = Some counter))
  /\ (forall other,
        (profiler.dumpProfileResults logEnabled
           (profiler.mkState (profiler.times st) (profiler.counters st) other)).1
        = (profiler.dumpProfileResults logEnabled st).1)
  /\ profiler.times dumped = ∅
  /\ profiler.counters dumped = ∅
  /\ profiler.threadCache dumped = Some cache
  /\ profiler.startThreadCache true dumped
     = profiler.mkState (profiler.localTimes cache) (profiler.localCounters cache)
         (Some (profiler.mkCache ∅ ∅)).
Proof.
  intros dumped. split; [|split].
  - unfold profiler.dumpProfileResults. destruct logEnabled; [|intros ? [=]].
    simpl. intros report [= <-]. simpl. split.
    + intros entry Hentry.
      apply emplace_rows_elem in Hentry as [Hnil | ([key e] & Hrow & ->)];
        [now apply elem_of_nil in Hnil|].
      exists key. now apply elem_of_map_to_list.
    + intros counter Hcounter.
      apply emplace_rows_elem in Hcounter as [Hnil | ([key c] & Hrow & ->)];
        [now apply elem_of_nil in Hnil|].
      exists key. now apply elem_of_map_to_list.
  - intros other. reflexivity.
  - subst dumped. simpl. repeat split; try assumption.
    unfold profiler.startThreadCache. simpl. rewrite Hcache.
    now rewrite dtor_into_empty.
Qed.

(** ** Counters stay under their indices *)

Lemma counters_indexed_insert (table : gmap N profiler.Counter) (key : N)
    (counter : profiler.Counter) :
  profiler.counters_indexed table -> profiler.index counter = key ->
  profiler.counters_indexed (<[key := counter]> table).
Proof.
  intros Htable Hindex k c Hlookup.
  apply lookup_insert_Some in Hlookup as [[<- <-] | [_ Hlookup]];
    [exact Hindex | now apply Htable].
Qed.

Lemma counters_indexed_alter (table : gmap N profiler.Counter) (key : N) (value : Z) :
  profiler.counters_indexed table ->
  profiler.counters_indexed (alter (profiler.Counter_increase value) key table).
Proof.
  intros Htable k c Hlookup.
  apply lookup_alter_Some in Hlookup as [(<- & before & Hbefore & ->) | [_ Hlookup]].
  - simpl. now apply Htable.
  - now apply Htable.
Qed.

Lemma counters_indexed_flush (rows : list (N * profiler.Counter)) :
  forall table : gmap N profiler.Counter,
    profiler.counters_indexed table ->
    (forall row, row ∈ rows -> profiler.index row.2 = row.1) ->
    profiler.counters_indexed (foldl profiler.flush_counter table rows).
Proof.
  induction rows as [|row rows IH]; intros table Htable Hrows; [exact Htable|].
  simpl. apply IH.
  - unfold profiler.flush_counter.
    destruct (table !! row.1) as [found|] eqn:Hfound.
    + apply counters_indexed_insert; [exact Htable|]. simpl. now apply Htable.
    + apply counters_indexed_insert; [exact Htable|].
      apply Hrows, elem_of_cons. now left.
  - intros row' Hrow'. apply Hrows, elem_of_cons. now right.
Qed.

Lemma call_keeps_indexed (MULTI_THREADED : bool) (st : profiler.State)
    (c : profiler.Call) :
  profiler.State_indexed st -> profiler.State_indexed (profiler.call MULTI_THREADED st c).
Proof.
  intros [Hglobal Hlocal].
  destruct c as [key nm file line | [[|] key] elapsed | idx nm file line prev
                | [[|] key] value | | logEnabled]; simpl.
  - unfold profiler.createEntry.
    destruct (profiler.threadCache st) as [cache|] eqn:Hcache; simpl.
    + split; [exact Hglobal|]. intros ? [= <-]. simpl. now apply Hlocal.
    + split; [exact Hglobal|]. intros ? [=].
  - split; [exact Hglobal | exact Hlocal].
  - split; [exact Hglobal|]. simpl.
    destruct (profiler.threadCache st) as [cache|]; simpl; [|intros ? [=]].
    intros ? [= <-]. simpl. now apply Hlocal.
  - unfold profiler.createCounter.
    destruct (profiler.threadCache st) as [cache|] eqn:Hcache; simpl.
    + split; [exact Hglobal|]. intros ? [= <-]. simpl.
      apply counters_indexed_insert; [now apply Hlocal | reflexivity].
    + split; [now apply counters_indexed_insert|]. intros ? [=].
  - split; [now apply counters_indexed_alter | exact Hlocal].
  - split; [exact Hglobal|]. simpl.
    destruct (profiler.threadCache st) as [cache|]; simpl; [|intros ? [=]].
    intros ? [= <-]. simpl. apply counters_indexed_alter. now apply Hlocal.
  - unfold profiler.startThreadCache. destruct MULTI_THREADED; [|now split].
    simpl. split.
    + destruct (profiler.threadCache st) as [cache|] eqn:Hcache; [|exact Hglobal].
      simpl. apply counters_indexed_flush; [exact Hglobal|].
      intros [k c] Hrow. apply elem_of_map_to_list in Hrow. simpl.
      now apply (Hlocal cache).
    + intros ? [= <-] k c Hlookup. cbn [profiler.localCounters] in Hlookup.
      now rewrite lookup_empty in Hlookup.
  - split; [|exact Hlocal]. intros k c Hlookup.
    change (profiler.counters _) with (∅ : gmap N profiler.Counter) in Hlookup.
    now rewrite lookup_empty in Hlookup.
Qed.

Lemma elem_of_pointers_into (table : profiler.Table) (pointer : profiler.Table * N)
    (pointers : list (profiler.Table * N)) :
  pointer ∈ profiler.pointers_into table pointers ->
  pointer ∈ pointers /\ pointer.1 = table.
Proof.
  unfold profiler.pointers_into. rewrite !list_elem_of_In, filter_In.
  intros [Hin Htable]. split; [exact Hin|]. now apply bool_decide_eq_true in Htable.
Qed.

Lemma dtor_keeps_rows (cache : profiler.ThreadResultCache)
    (times : gmap N profiler.Entry) (counters : gmap N profiler.Counter) (key : N) :
  (is_Some (times !! key) ->
   is_Some ((profiler.ThreadResultCache_dtor cache (times, counters)).1 !! key))
  /\ (is_Some (counters !! key) ->
      is_Some ((profiler.ThreadResultCache_dtor cache (times, counters)).2 !! key)).
Proof.
  unfold profiler.ThreadResultCache_dtor. simpl. split; intros Hrow.
  - rewrite (flush_rows_lookup profiler.Entry_add profiler.flush_entry)
      by (reflexivity || apply NoDup_fst_map_to_list).
    rewrite list_to_map_to_list.
    destruct (profiler.localTimes cache !! key); [eexists; reflexivity | exact Hrow].
  - rewrite (flush_rows_lookup profiler.Counter_add profiler.flush_counter)
      by (reflexivity || apply NoDup_fst_map_to_list).
    rewrite list_to_map_to_list.
    destruct (profiler.localCounters cache !! key); [eexists; reflexivity | exact Hrow].
Qed.

Lemma is_Some_alter {V : Type} (f : V -> V) (table : gmap N V) (key other : N) :
  is_Some (table !! other) -> is_Some (alter f key table !! other).
Proof.
  intros [row Hrow]. destruct (decide (key = other)) as [-> | Hne].
  - rewrite lookup_alter_eq, Hrow. eexists; reflexivity.
  - rewrite lookup_alter_ne by exact Hne. rewrite Hrow. eexists; reflexivity.
Qed.

Lemma is_Some_insert {V : Type} (row : V) (table : gmap N V) (key other : N) :
  is_Some (table !! other) -> is_Some (<[key := row]> table !! other).
Proof.
  intros Hrow. destruct (decide (key = other)) as [-> | Hne].
  - rewrite lookup_insert_eq. eexists; reflexivity.
  - now rewrite lookup_insert_ne by exact Hne.
Qed.

(** A permitted call leaves every live pointer with its row. *)
Lemma call_keeps_pointers (MULTI_THREADED : bool) (st : profiler.State)
    (live : profiler.Pointers) (c : profiler.Call) :
  profiler.pointers_resolve st live ->
  profiler.pointers_resolve (profiler.call MULTI_THREADED st c)
    (profiler.track MULTI_THREADED st live c).
Proof.
  intros [Hentries Hcounters].
  destruct c as [key nm file line | [[|] key] elapsed | idx nm file line prev
                | [[|] key] value | | logEnabled].
  - simpl. unfold profiler.createEntry.
    destruct (profiler.threadCache st) as [cache|] eqn:Hcache; simpl; split.
    + intros pointer Hin. apply elem_of_cons in Hin as [-> | Hin].
      * simpl. rewrite lookup_insert_eq. eexists; reflexivity.
      * specialize (Hentries pointer Hin). destruct pointer as [[|] k]; simpl in *;
          [exact Hentries|]. rewrite Hcache in Hentries. simpl in Hentries.
        now apply is_Some_insert.
    + intros pointer Hin. specialize (Hcounters pointer Hin).
      destruct pointer as [[|] k]; simpl in *; [exact Hcounters|].
      now rewrite Hcache in Hcounters.
    + intros pointer Hin. apply elem_of_cons in Hin as [-> | Hin].
      * simpl. rewrite lookup_insert_eq. eexists; reflexivity.
      * specialize (Hentries pointer Hin). destruct pointer as [[|] k]; simpl in *;
          [now apply is_Some_insert|]. now rewrite Hcache in Hentries.
    + intros pointer Hin. specialize (Hcounters pointer Hin).
      destruct pointer as [[|] k]; simpl in *; [exact Hcounters|].
      now rewrite Hcache in Hcounters.
  - simpl. split.
    + intros pointer Hin. specialize (Hentries pointer Hin).
      destruct pointer as [[|] k]; simpl in *; [now apply is_Some_alter | exact Hentries].
    + exact Hcounters.
  - simpl. split.
    + intros pointer Hin. specialize (Hentries pointer Hin).
      destruct pointer as [[|] k]; simpl in *; [exact Hentries|].
      destruct (profiler.threadCache st) as [cache|]; simpl in *;
        [now apply is_Some_alter | exact Hentries].
    + intros pointer Hin. specialize (Hcounters pointer Hin).
      destruct pointer as [[|] k]; simpl in *; [exact Hcounters|].
      destruct (profiler.threadCache st) as [cache|]; simpl in *; exact Hcounters.
  - simpl. unfold profiler.createCounter.
    destruct (profiler.threadCache st) as [cache|] eqn:Hcache; simpl; split.
    + intros pointer Hin. specialize (Hentries pointer Hin).
      destruct pointer as [[|] k]; simpl in *; [exact Hentries|].
      now rewrite Hcache in Hentries.
    + intros pointer Hin. apply elem_of_cons in Hin as [-> | Hin].
      * simpl. rewrite lookup_insert_eq. eexists; reflexivity.
      * specialize (Hcounters pointer Hin). destruct pointer as [[|] k]; simpl in *;
          [exact Hcounters|]. rewrite Hcache in Hcounters. simpl in Hcounters.
        now apply is_Some_insert.
    + intros pointer Hin. specialize (Hentries pointer Hin).
      destruct pointer as [[|] k]; simpl in *; [exact Hentries|].
      now rewrite Hcache in Hentries.
    + intros pointer Hin. apply elem_of_cons in Hin as [-> | Hin].
      * simpl. rewrite lookup_insert_eq. eexists; reflexivity.
      * specialize (Hcounters pointer Hin). destruct pointer as [[|] k]; simpl in *;
          [now apply is_Some_insert|]. now rewrite Hcache in Hcounters.
  - simpl. split.
    + exact Hentries.
    + intros pointer Hin. specialize (Hcounters pointer Hin).
      destruct pointer as [[|] k]; simpl in *; [now apply is_Some_alter | exact Hcounters].
  - simpl. split.
    + intros pointer Hin. specialize (Hentries pointer Hin).
      destruct pointer as [[|] k]; simpl in *; [exact Hentries|].
      destruct (profiler.threadCache st) as [cache|]; simpl in *; exact Hentries.
    + intros pointer Hin. specialize (Hcounters pointer Hin).
      destruct pointer as [[|] k]; simpl in *; [exact Hcounters|].
      destruct (profiler.threadCache st) as [cache|]; simpl in *;
        [now apply is_Some_alter | exact Hcounters].
  - simpl. unfold profiler.startThreadCache.
    destruct MULTI_THREADED; [|split; assumption].
    split; intros pointer Hin; apply elem_of_pointers_into in Hin as [Hin Htable];
      destruct pointer as [table k]; simpl in Htable; subst table.
    + specialize (Hentries _ Hin). simpl in Hentries |- *.
      destruct (profiler.threadCache st) as [cache|]; [|exact Hentries].
      now apply dtor_keeps_rows.
    + specialize (Hcounters _ Hin). simpl in Hcounters |- *.
      destruct (profiler.threadCache st) as [cache|]; [|exact Hcounters].
      now apply dtor_keeps_rows.
  - simpl.
    split; intros pointer Hin; apply elem_of_pointers_into in Hin as [Hin Htable];
      destruct pointer as [table k]; simpl in Htable; subst table.
    + exact (Hentries _ Hin).
    + exact (Hcounters _ Hin).
Qed.

Lemma run_keeps_invariants (MULTI_THREADED : bool) (calls : list profiler.Call) :
  forall (st : profiler.State) (live : profiler.Pointers)
         (final : profiler.State) (left : profiler.Pointers),
    profiler.State_indexed st -> profiler.pointers_resolve st live ->
    profiler.run MULTI_THREADED calls st live = Some (final, left) ->
    profiler.State_indexed final /\ profiler.pointers_resolve final left.
Proof.
  induction calls as [|c calls IH]; intros st live final left Hindexed Hresolve Hrun.
  - injection Hrun as <- <-. now split.
  - simpl in Hrun. destruct (profiler.permitted live c); [|discriminate].
    eapply IH; [| |exact Hrun].
    + now apply call_keeps_indexed.
    + now apply call_keeps_pointers.
Qed.

(** X15: in a run from the start of the program in which endFunctionCall
    and increaseCounter are given only pointers that createEntry and
    createCounter returned and whose rows have not been destroyed since (by
    the clear of a dump, for the global tables, or by the replacement of the
    cache, for the cached rows), with or without MULTI_THREADED, every
    counter of the global table and of the thread's cache sits under its own
    index at the end, and every pointer still live has its row. *)
Theorem counters_stay_indexed (MULTI_THREADED : bool) (calls : list profiler.Call)
    (final : profiler.State) (left : profiler.Pointers)
    (Hrun : profiler.run MULTI_THREADED calls profiler.initial profiler.no_pointers
            = Some (final, left)) :
  profiler.State_indexed final /\ profiler.pointers_resolve final left.
Proof.
  apply (run_keeps_invariants MULTI_THREADED calls profiler.initial profiler.no_pointers);
    [| |exact Hrun].
  - split; [|intros ? [=]]. intros k c Hlookup.
    change (profiler.counters _) with (∅ : gmap N profiler.Counter) in Hlookup.
    now rewrite lookup_empty in Hlookup.
  - split; intros pointer Hin; now apply elem_of_nil in Hin.
Qed.

(** ** The averages of a row *)

(** X16: the average per call of a function or counter never divides by
    zero: the total is divided by the invocations, or by one when there are
    none, so the quotient times that divisor is at most the total and less
    than one divisor below it, and a row without invocations shows its
    total. *)
Theorem perCall_bounds (entry : profiler.Entry) (counter : profiler.Counter) :
  let calls := Z.max (profiler.invocations entry) 1 in
  let increases := Z.max (profiler.cinvocations counter) 1 in
  (profiler.Entry_perCall entry * calls <= profiler.uint64 (profiler.duration entry)
   < (profiler.Entry_perCall entry + 1) * calls)
  /\ (profiler.invocations entry <= 1 ->
      profiler.Entry_perCall entry = profiler.uint64 (profiler.duration entry))
  /\ (profiler.Counter_perCall counter * increases <= profiler.count counter
      < (profiler.Counter_perCall counter + 1) * increases)
  /\ (profiler.cinvocations counter <= 1 ->
      profiler.Counter_perCall counter = profiler.count counter).
Proof.
  intros calls increases. unfold profiler.Entry_perCall, profiler.Counter_perCall.
  fold calls increases.
  assert (Hcalls : 0 < calls) by (unfold calls; lia).
  assert (Hincreases : 0 < increases) by (unfold increases; lia).
  split; [|split; [|split]].
  - pose proof (Z.mul_div_le (profiler.uint64 (profiler.duration entry)) calls Hcalls).
    pose proof (Z.mul_succ_div_gt (profiler.uint64 (profiler.duration entry)) calls Hcalls).
    lia.
  - intros Hnone. replace calls with 1 by (unfold calls; lia). apply Z.div_1_r.
  - pose proof (Z.mul_div_le (profiler.count counter) increases Hincreases).
    pose proof (Z.mul_succ_div_gt (profiler.count counter) increases Hincreases).
    lia.
  - intros Hnone. replace increases with 1 by (unfold increases; lia). apply Z.div_1_r.
Qed.

(** ** What a thread with a cache leaves alone *)

(** X17: while the thread has a cache, measuring calls and counting go to
    the cache: the global tables are as before, and the thread still has a
    cache. *)
Theorem cached_measurements_leave_globals (st : profiler.State)
    (cache : profiler.ThreadResultCache) (key idx line prevIndex : N)
    (nm file : string) (elapsed value : Z)
    (Hcache : profiler.threadCache st = Some cache) :
  let measured := profiler.measured_call key nm file line st elapsed in
  let counted := profiler.counted idx nm file line prevIndex st value in
  profiler.times measured = profiler.times st
  /\ profiler.counters measured = profiler.counters st
  /\ profiler.active_table measured = profiler.ThreadLocal
  /\ profiler.times counted = profiler.times st
  /\ profiler.counters counted = profiler.counters st
  /\ profiler.active_table counted = profiler.ThreadLocal.
Proof.
  unfold profiler.measured_call, profiler.counted, profiler.createEntry,
    profiler.createCounter, profiler.active_table.
  rewrite Hcache. simpl. repeat split; reflexivity.
Qed.

(** * The further properties at concrete inputs *)

Lemma LifetimeBoundary_ctor_accessor_witness :
  resolves_to_stack_allocation (LocalValue (mkLocal "buffer" StackAllocation))
  /\ (exists this,
        LifetimeBoundary_ctor (LocalValue (mkLocal "buffer" StackAllocation)) true
        = Returns this)
  /\ getStackAllocation sample_boundary
     = Returns (LocalValue (mkLocal "buffer" StackAllocation)).
Proof.
  assert (Hvalid : resolves_to_stack_allocation
                     (LocalValue (mkLocal "buffer" StackAllocation))).
  { eexists. split; reflexivity. }
  destruct (LifetimeBoundary_ctor_accessor
              (LocalValue (mkLocal "buffer" StackAllocation)) true) as [Hiff Hget].
  split; [exact Hvalid|]. split; [apply Hiff, Hvalid|].
  exact (proj1 (Hget sample_boundary sample_boundary_constructed)).
Defined.

Lemma toString_MemoryScope_injective_witness :
  toString_MemoryScope (scope (MemoryBarrier_ctor DEVICE ACQUIRE)) = Returns "device"
  /\ toString_MemoryScope 1 = Returns "device"
  /\ scope (MemoryBarrier_ctor DEVICE ACQUIRE) = 1.
Proof.
  assert (Hfirst : toString_MemoryScope (scope (MemoryBarrier_ctor DEVICE ACQUIRE))
                   = Returns "device") by reflexivity.
  assert (Hsecond : toString_MemoryScope 1 = Returns "device") by reflexivity.
  split; [exact Hfirst|]. split; [exact Hsecond|].
  exact (toString_MemoryScope_injective _ _ _ Hfirst Hsecond).
Defined.

Lemma toString_MemorySemantics_ignores_other_bits_witness :
  Forall (fun flag => Z.land 0x40 flag = 0) semantics_enumerators
  /\ toString_MemorySemantics (Z.lor (Z.lor ACQUIRE IMAGE_MEMORY) 0x40) = "acquire|image".
Proof.
  assert (Hextra : Forall (fun flag => Z.land 0x40 flag = 0) semantics_enumerators).
  { unfold semantics_enumerators. repeat constructor. }
  split; [exact Hextra|].
  rewrite (toString_MemorySemantics_ignores_other_bits _ _ Hextra). reflexivity.
Defined.

Lemma toString_MemorySemantics_acquire_release_witness :
  disjoint_flags semantics_enumerators
  /\ toString_MemorySemantics (Z.lor (Z.lor ACQUIRE RELEASE) WORK_GROUP_MEMORY)
     = "acquire|release|work-group".
Proof.
  split; [exact sample_flags_disjoint|].
  rewrite <- (toString_MemorySemantics_acquire_release WORK_GROUP_MEMORY
                sample_flags_disjoint).
  reflexivity.
Defined.

Lemma MemoryBarrier_render_no_semantics_witness :
  Forall (fun flag => flag <> 0) semantics_enumerators
  /\ semantics (MemoryBarrier_ctor DEVICE 0) = 0
  /\ toString_MemoryScope (scope (MemoryBarrier_ctor DEVICE 0)) = Returns "device"
  /\ MemoryBarrier_to_string (MemoryBarrier_ctor DEVICE 0) = Returns "mem-fence device, ".
Proof.
  assert (Hflags : Forall (fun flag => flag <> 0) semantics_enumerators).
  { unfold semantics_enumerators. repeat constructor; discriminate. }
  split; [exact Hflags|]. split; [reflexivity|]. split; [reflexivity|].
  exact (MemoryBarrier_render_no_semantics (MemoryBarrier_ctor DEVICE 0) "device"
           Hflags eq_refl eq_refl).
Defined.

Lemma Entry_less_strict_weak_order_witness :
  profiler.Entry_less (profiler.mkEntry "parse" 1500 1 "Parser.cpp" 21)
                      (profiler.mkEntry "emit" 700 1 "CodeGenerator.cpp" 40) = true
  /\ profiler.Entry_less (profiler.mkEntry "emit" 700 1 "CodeGenerator.cpp" 40)
                         (profiler.mkEntry "check" 700 3 "Checker.cpp" 8) = true
  /\ profiler.Entry_less (profiler.mkEntry "parse" 1500 1 "Parser.cpp" 21)
                         (profiler.mkEntry "check" 700 3 "Checker.cpp" 8) = true.
Proof.
  assert (Hfirst : profiler.Entry_less (profiler.mkEntry "parse" 1500 1 "Parser.cpp" 21)
                     (profiler.mkEntry "emit" 700 1 "CodeGenerator.cpp" 40) = true)
    by reflexivity.
  assert (Hsecond : profiler.Entry_less (profiler.mkEntry "emit" 700 1 "CodeGenerator.cpp" 40)
                      (profiler.mkEntry "check" 700 3 "Checker.cpp" 8) = true)
    by reflexivity.
  split; [exact Hfirst|]. split; [exact Hsecond|].
  exact (proj1 (proj2 Entry_less_strict_weak_order) _ _ _ Hfirst Hsecond).
Defined.

Lemma Counter_less_strict_weak_order_witness :
  profiler.index (profiler.mkCounter "locals" 5 2 1 4 "Optimizer.cpp" 30)
  <> profiler.index (profiler.mkCounter "instructions" 120 4 1 4 "Optimizer.cpp" 12)
  /\ profiler.Counter_less (profiler.mkCounter "locals" 5 2 1 4 "Optimizer.cpp" 30)
       (profiler.mkCounter "instructions" 120 4 1 4 "Optimizer.cpp" 12) = true.
Proof.
  assert (Hne : profiler.index (profiler.mkCounter "locals" 5 2 1 4 "Optimizer.cpp" 30)
                <> profiler.index
                     (profiler.mkCounter "instructions" 120 4 1 4 "Optimizer.cpp" 12))
    by discriminate.
  split; [exact Hne|].
  rewrite (proj1 (proj2 (proj2 Counter_less_strict_weak_order)) _ _ Hne). reflexivity.
Defined.

Lemma dumpProfileResults_functions_witness :
  profiler.times profiler.sample !! 9%N
  = Some (profiler.mkEntry "emit" 700 1 "CodeGenerator.cpp" 40)
  /\ exists report,
       (profiler.dumpProfileResults true profiler.sample).1 = Some report
       /\ exists row, row ∈ profiler.functions report
                      /\ profiler.duration row = 700 /\ profiler.name row = "emit".
Proof.
  assert (Hrow : profiler.times profiler.sample !! 9%N
                 = Some (profiler.mkEntry "emit" 700 1 "CodeGenerator.cpp" 40))
    by (vm_compute; reflexivity).
  split; [exact Hrow|].
  destruct (dumpProfileResults_functions profiler.sample)
    as (report & Hreport & _ & _ & _ & Hcovers & _).
  exists report. split; [exact Hreport|]. exact (Hcovers _ _ Hrow).
Defined.

Lemma sample_counters_indexed : profiler.counters_indexed (profiler.counters profiler.sample).
Proof.
  change (map_Forall (fun key counter => profiler.index counter = key)
            (profiler.counters profiler.sample)).
  apply (bool_decide_unpack _). vm_compute. exact I.
Defined.

Lemma dumpProfileResults_counts_witness :
  profiler.counters_indexed (profiler.counters profiler.sample)
  /\ exists report,
       (profiler.dumpProfileResults true profiler.sample).1 = Some report
       /\ List.length (profiler.counts report) = 2%nat.
Proof.
  split; [exact sample_counters_indexed|].
  destruct (dumpProfileResults_counts profiler.sample sample_counters_indexed)
    as (report & Hreport & Hlength & _).
  exists report. split; [exact Hreport|]. rewrite Hlength. vm_compute. reflexivity.
Defined.

Lemma dumpProfileResults_keeps_thread_cache_witness :
  profiler.threadCache profiler.sample
  = Some (profiler.mkCache {[ 7%N := profiler.mkEntry "parse" 1500 1 "Parser.cpp" 21 ]} ∅)
  /\ (exists report,
        (profiler.dumpProfileResults true profiler.sample).1 = Some report
        /\ (profiler.mkEntry "parse" 1500 1 "Parser.cpp" 21 ∉ profiler.functions report))
  /\ profiler.times (profiler.startThreadCache true
                       (profiler.dumpProfileResults true profiler.sample).2)
     = {[ 7%N := profiler.mkEntry "parse" 1500 1 "Parser.cpp" 21 ]}.
Proof.
  assert (Hcache : profiler.threadCache profiler.sample
            = Some (profiler.mkCache
                      {[ 7%N := profiler.mkEntry "parse" 1500 1 "Parser.cpp" 21 ]} ∅))
    by (vm_compute; reflexivity).
  assert (Htimes : profiler.times profiler.sample
            = {[ 9%N := profiler.mkEntry "emit" 700 1 "CodeGenerator.cpp" 40 ]})
    by (vm_compute; reflexivity).
  split; [exact Hcache|].
  destruct (dumpProfileResults_keeps_thread_cache true profiler.sample _ Hcache)
    as (Hreport & _ & _ & _ & _ & Hflushed).
  split.
  - eexists. split; [reflexivity|]. intros Hin.
    destruct (proj1 (Hreport _ eq_refl) _ Hin) as [key Hkey].
    rewrite Htimes in Hkey. apply lookup_singleton_Some in Hkey as [_ Hkey].
    discriminate Hkey.
  - rewrite Hflushed. reflexivity.
Defined.

Lemma counters_stay_indexed_witness :
  exists left,
    profiler.run true profiler.sample_calls profiler.initial profiler.no_pointers
    = Some (profiler.sample, left)
    /\ profiler.State_indexed profiler.sample
    /\ profiler.pointers_resolve profiler.sample left.
Proof.
  eexists. split; [vm_compute; reflexivity|].
  apply (counters_stay_indexed true profiler.sample_calls).
  vm_compute. reflexivity.
Defined.

Lemma perCall_bounds_witness :
  profiler.invocations (profiler.mkEntry "emit" (-1) 0 "CodeGenerator.cpp" 40) <= 1
  /\ profiler.Entry_perCall (profiler.mkEntry "emit" (-1) 0 "CodeGenerator.cpp" 40)
     = 2 ^ 64 - 1.
Proof.
  assert (Hnone : profiler.invocations
                    (profiler.mkEntry "emit" (-1) 0 "CodeGenerator.cpp" 40) <= 1)
    by (simpl; lia).
  split; [exact Hnone|].
  rewrite (proj1 (proj2 (perCall_bounds
                           (profiler.mkEntry "emit" (-1) 0 "CodeGenerator.cpp" 40)
                           profiler.Counter_zero)) Hnone).
  reflexivity.
Defined.

Lemma cached_measurements_leave_globals_witness :
  profiler.threadCache profiler.sample
  = Some (profiler.mkCache {[ 7%N := profiler.mkEntry "parse" 1500 1 "Parser.cpp" 21 ]} ∅)
  /\ profiler.times (profiler.measured_call 9 "emit" "CodeGenerator.cpp" 40
                       profiler.sample 250)
     = profiler.times profiler.sample.
Proof.
  assert (Hcache : profiler.threadCache profiler.sample
            = Some (profiler.mkCache
                      {[ 7%N := profiler.mkEntry "parse" 1500 1 "Parser.cpp" 21 ]} ∅))
    by (vm_compute; reflexivity).
  split; [exact Hcache|].
  exact (proj1 (cached_measurements_leave_globals profiler.sample _ 9 0 40 0
                  "emit" "CodeGenerator.cpp" 250 0 Hcache)).
Defined.
